(** * cli_virtual_assistant: an in-memory address book

    A shallow embedding of [cli_virtual_assistant.py] (validated fields,
    contact records, the address book with search and paginated listing)
    and the properties of it that the specification states.

    Conventions of the embedding.
    - A Python [str] is the sequence of its code points; the Standard
      Library's [string] covers the code points below 256.
    - Python values that reach the fields are the universe [pyval]
      ([None], [int], [str], [datetime]).
    - A raised exception is the [Raise] branch of [result].
    - [datetime.now()] is the parameter [now] of every function that reads
      the clock.
    - Field objects are mutable and compared by identity, so records hold
      references ([loc]) into a [heap] of field objects. *)

From Stdlib Require Import ZArith List Bool String Ascii Lia Arith.
From Stdlib Require Import Numbers.DecimalString.
Import ListNotations.

Local Open Scope list_scope.
Local Open Scope string_scope.
Local Open Scope Z_scope.

(** ** Exceptions and fallible computations *)

Inductive exn : Type :=
| TypeError
| ValueError
| AttributeError
| KeyError
| RuntimeError
| IndexError
| StopIteration.

Inductive result (A : Type) : Type :=
| Ok (a : A)
| Raise (e : exn).

Arguments Ok {A} a.
Arguments Raise {A} e.

Definition bind {A B : Type} (r : result A) (k : A -> result B) : result B :=
  match r with
  | Ok a => k a
  | Raise e => Raise e
  end.

Notation "x <- r ;; k" := (bind r (fun x => k))
  (at level 100, r at next level, right associativity).

Definition completes {A : Type} (r : result A) : Prop :=
  exists a, r = Ok a.

(** ** datetime (the part of the library module the program uses) *)

Record datetime : Type := mk_datetime {
  year : Z;
  month : Z;
  day : Z;
  hour : Z;
  minute : Z;
  second : Z;
  microsecond : Z
}.

Definition MINYEAR : Z := 1.
Definition MAXYEAR : Z := 9999.

Definition is_leap (y : Z) : bool :=
  (y mod 4 =? 0) && (negb (y mod 100 =? 0) || (y mod 400 =? 0)).

Definition DAYS_IN_MONTH : list Z :=
  [-1; 31; 28; 31; 30; 31; 30; 31; 31; 30; 31; 30; 31].

Definition DAYS_BEFORE_MONTH : list Z :=
  [-1; 0; 31; 59; 90; 120; 151; 181; 212; 243; 273; 304; 334].

Definition days_in_month (y m : Z) : Z :=
  if (m =? 2) && is_leap y then 29 else nth (Z.to_nat m) DAYS_IN_MONTH 0.

Definition days_before_year (y : Z) : Z :=
  let y' := y - 1 in
  y' * 365 + y' / 4 - y' / 100 + y' / 400.

Definition days_before_month (y m : Z) : Z :=
  nth (Z.to_nat m) DAYS_BEFORE_MONTH 0
  + (if (2 <? m) && is_leap y then 1 else 0).

Definition ymd2ord (y m d : Z) : Z :=
  days_before_year y + days_before_month y m + d.

Definition check_date_fields (y m d : Z) : bool :=
  (MINYEAR <=? y) && (y <=? MAXYEAR)
  && (1 <=? m) && (m <=? 12)
  && (1 <=? d) && (d <=? days_in_month y m).

(** [datetime(year, month, day)]: midnight of that day, or [ValueError]. *)
Definition datetime_ymd (y m d : Z) : result datetime :=
  if check_date_fields y m d
  then Ok (mk_datetime y m d 0 0 0 0)
  else Raise ValueError.

Definition toordinal (t : datetime) : Z :=
  ymd2ord (year t) (month t) (day t).

Definition fields (t : datetime) : list Z :=
  [year t; month t; day t; hour t; minute t; second t; microsecond t].

Fixpoint cmp_fields (a b : list Z) : comparison :=
  match a, b with
  | x :: a', y :: b' =>
      match x ?= y with
      | Eq => cmp_fields a' b'
      | c => c
      end
  | [], [] => Eq
  | [], _ :: _ => Lt
  | _ :: _, [] => Gt
  end.

(** [a > b] on naive datetimes. *)
Definition datetime_gt (a b : datetime) : bool :=
  match cmp_fields (fields a) (fields b) with
  | Gt => true
  | _ => false
  end.

(** A [timedelta], kept as its total number of microseconds. *)
Definition timedelta : Type := Z.

Definition US_PER_DAY : Z := 86400 * 1000000.

Definition datetime_sub (a b : datetime) : timedelta :=
  let secs t := second t + minute t * 60 + hour t * 3600 in
  (toordinal a - toordinal b) * US_PER_DAY
  + (secs a - secs b) * 1000000
  + (microsecond a - microsecond b).

(** The normalised [days] attribute: the floor of the difference in days. *)
Definition days (d : timedelta) : Z := d / US_PER_DAY.

(** ** Python values *)

Inductive pyval : Type :=
| PyNone
| PyInt (z : Z)
| PyStr (s : string)
| PyDatetime (d : datetime).

(** Truth value testing: [None], [0] and [''] are false. *)
Definition truthy (v : pyval) : bool :=
  match v with
  | PyNone => false
  | PyInt z => negb (z =? 0)
  | PyStr s => negb (String.length s =? 0)%nat
  | PyDatetime _ => true
  end.

Definition datetime_eqb (a b : datetime) : bool :=
  match cmp_fields (fields a) (fields b) with
  | Eq => true
  | _ => false
  end.

(** [==] on the values of the universe. *)
Definition pyval_eqb (a b : pyval) : bool :=
  match a, b with
  | PyNone, PyNone => true
  | PyInt x, PyInt y => x =? y
  | PyStr s, PyStr t => String.eqb s t
  | PyDatetime d, PyDatetime e => datetime_eqb d e
  | _, _ => false
  end.

(** [str.isdigit] on one character: the decimal digits and, below 256, the
    superscripts two, three and one. *)
Definition isdigit (c : ascii) : bool :=
  let n := nat_of_ascii c in
  ((48 <=? n) && (n <=? 57) || (n =? 178) || (n =? 179) || (n =? 185))%nat.

Fixpoint filter_str (f : ascii -> bool) (s : string) : string :=
  match s with
  | EmptyString => EmptyString
  | String c s' => if f c then String c (filter_str f s') else filter_str f s'
  end.

Definition len (s : string) : Z := Z.of_nat (String.length s).

(** ** Fields *)

Inductive field_class : Type := Field | Name | Phone | Birthday.

(** A field object: its class and the private attribute behind [value]. *)
Record field_obj : Type := mk_field {
  cls : field_class;
  value : pyval
}.

Definition valid_value (c : field_class) (now : datetime) (v : pyval)
  : result bool :=
  match c with
  | Field | Name => Ok (truthy v)
  | Phone =>
      match v with
      | PyStr s =>
          let phone := filter_str isdigit s in
          Ok ((8 <? len phone) && (len phone <? 13) && (len s <? 20))
      | _ => Raise TypeError
      end
  | Birthday =>
      match v with
      | PyDatetime b =>
          Ok ((0 <? year now - year b) && (year now - year b <=? 100))
      | _ => Ok false
      end
  end.

(** The [value] setter. *)
Definition value_setter (now : datetime) (self : field_obj) (val : pyval)
  : result field_obj :=
  ok <- valid_value (cls self) now val ;;
  Ok (if ok then mk_field (cls self) val else self).

(** [__init__]: the attribute starts as [None], then the setter runs. *)
Definition new (c : field_class) (now : datetime) (v : pyval)
  : result field_obj :=
  value_setter now (mk_field c PyNone) v.

(** ** The heap of field objects *)

Definition loc : Type := nat.
Definition heap : Type := list field_obj.

Definition deref (h : heap) (l : loc) : field_obj :=
  nth l h (mk_field Field PyNone).

(** An argument of a method: a plain value or a reference to a field. *)
Inductive pyobj : Type :=
| Val (v : pyval)
| Ref (l : loc).

Definition exn_eqb (a b : exn) : bool :=
  match a, b with
  | TypeError, TypeError
  | ValueError, ValueError
  | AttributeError, AttributeError
  | KeyError, KeyError
  | RuntimeError, RuntimeError
  | IndexError, IndexError
  | StopIteration, StopIteration => true
  | _, _ => false
  end.

(** [try: body except e: handler] *)
Definition try_except {A : Type} (body : result A) (e : exn)
  (handler : result A) : result A :=
  match body with
  | Ok a => Ok a
  | Raise e' => if exn_eqb e e' then handler else Raise e'
  end.

(** ** Lists mutated in place *)

(** [l.remove(x)] on a list of field objects: the first item identical to
    [x] goes; [ValueError] when there is none. *)
Fixpoint list_remove (x : loc) (l : list loc) : result (list loc) :=
  match l with
  | [] => Raise ValueError
  | y :: l' =>
      if Nat.eqb y x then Ok l'
      else l'' <- list_remove x l' ;; Ok (y :: l'')
  end.

(** [l[i] = x]; [IndexError] out of range. *)
Fixpoint setitem {A : Type} (l : list A) (i : nat) (x : A)
  : result (list A) :=
  match l, i with
  | [], _ => Raise IndexError
  | _ :: l', O => Ok (x :: l')
  | y :: l', S i' => l'' <- setitem l' i' x ;; Ok (y :: l'')
  end.

(** [for i, x in enumerate(l): body], where the body may mutate [l]: the
    list iterator keeps an index and reads the list as it is at each step.
    [fuel] bounds the number of iterations. *)
Section ForList.
Context {A : Type} (body : nat -> A -> list A -> result (list A)).

Fixpoint for_list (fuel : nat) (i : nat) (l : list A) : result (list A) :=
  match fuel with
  | O => Ok l
  | S fuel' =>
      match nth_error l i with
      | None => Ok l
      | Some x => l' <- body i x l ;; for_list fuel' (S i) l'
      end
  end.

End ForList.

(** ** Record *)

Record record : Type := mk_record {
  name : loc;
  phones : list loc;
  birthday : option loc
}.

Definition set_phones (self : record) (l : list loc) : record :=
  mk_record (name self) l (birthday self).

(** [Record(name, phone, birthday)].  The test [if phone:] is false for
    [None] and true for a field object, which defines neither [__bool__]
    nor [__len__]. *)
Definition Record_init (name : loc) (phone birthday : option loc) : record :=
  let phones := [] in
  let phones :=
    match phone with
    | Some p => (phones ++ [p])%list
    | None => phones
    end in
  mk_record name phones birthday.

(** The attributes [month] and [day] exist on a datetime only. *)
Definition as_datetime (v : pyval) : result datetime :=
  match v with
  | PyDatetime d => Ok d
  | _ => Raise AttributeError
  end.

(** [if self.birthday:] is the same test on the stored birthday. *)
Definition days_to_birthday (h : heap) (now : datetime) (self : record)
  : result pyval :=
  match birthday self with
  | Some b =>
      let current_date := now in
      bv <- as_datetime (value (deref h b)) ;;
      secelebration_birthday <-
        datetime_ymd (year current_date) (month bv) (day bv) ;;
      secelebration_birthday <-
        (if datetime_gt current_date secelebration_birthday
         then datetime_ymd (year current_date + 1) (month bv) (day bv)
         else Ok secelebration_birthday) ;;
      Ok (PyInt (days (datetime_sub secelebration_birthday current_date)))
  | None => Ok PyNone
  end.

(** [phone.value] raises [AttributeError] on anything that is not a field
    object; the handler swallows it. *)
Definition add_phone (h : heap) (self : record) (phone : pyobj)
  : result record :=
  try_except
    (match phone with
     | Ref p =>
         if truthy (value (deref h p))
         then Ok (set_phones self (phones self ++ [p])%list)
         else Ok self
     | Val _ => Raise AttributeError
     end)
    AttributeError
    (Ok self).

Definition remove_phone_body (h : heap) (phone : loc)
  (_ : nat) (existing_phone : loc) (l : list loc) : result (list loc) :=
  if pyval_eqb (value (deref h phone)) (value (deref h existing_phone))
  then list_remove existing_phone l
  else Ok l.

Definition remove_phone (h : heap) (self : record) (phone : loc)
  : result record :=
  l <- for_list (remove_phone_body h phone)
         (List.length (phones self)) 0 (phones self) ;;
  Ok (set_phones self l).

Definition edit_phone_body (h : heap) (old_phone new_phone : loc)
  (idx : nat) (phone : loc) (l : list loc) : result (list loc) :=
  if pyval_eqb (value (deref h old_phone)) (value (deref h phone))
  then setitem l idx new_phone
  else Ok l.

Definition edit_phone (h : heap) (self : record) (old_phone new_phone : loc)
  : result record :=
  l <- for_list (edit_phone_body h old_phone new_phone)
         (List.length (phones self)) 0 (phones self) ;;
  Ok (set_phones self l).

(** ** AddressBook *)

(** The iterator over the keys of a dict: the size the dict had when the
    iterator was made and the position reached; it is spent after the
    last key and broken once the dict has changed size. *)
Inductive dict_iter : Type :=
| DictIter (di_used : nat) (di_pos : nat)
| DictIterSpent
| DictIterBroken.

(** [data] is the dict of [UserDict], in insertion order; [keys_iter] is
    the attribute [__iter__] sets, absent before the first call. *)
Record AddressBook : Type := mk_book {
  data : list (pyval * record);
  keys_iter : option dict_iter
}.

Definition AddressBook_init : AddressBook := mk_book [] None.

(** [d[key] = r]: an existing key keeps its place. *)
Fixpoint dict_setitem (d : list (pyval * record)) (key : pyval) (r : record)
  : list (pyval * record) :=
  match d with
  | [] => [(key, r)]
  | (k, r') :: d' =>
      if pyval_eqb k key then (k, r) :: d'
      else (k, r') :: dict_setitem d' key r
  end.

(** [d[key]] *)
Fixpoint dict_getitem (d : list (pyval * record)) (key : pyval)
  : result record :=
  match d with
  | [] => Raise KeyError
  | (k, r) :: d' => if pyval_eqb k key then Ok r else dict_getitem d' key
  end.

Definition add_record (h : heap) (self : AddressBook) (r : record)
  : AddressBook :=
  mk_book (dict_setitem (data self) (value (deref h (name r))) r)
          (keys_iter self).

(** What [search] returns: a value ([None] or a key) or a list of values. *)
Inductive pyres : Type :=
| RVal (v : pyval)
| RList (l : list pyval).

Definition search (h : heap) (self : AddressBook) (search_obj : pyobj)
  : pyres :=
  let results := RVal PyNone in
  match search_obj with
  | Ref q =>
      match cls (deref h q) with
      | Name =>
          fold_left
            (fun results '(name, r) =>
               if pyval_eqb (value (deref h q)) name
               then RList (map (fun x => value (deref h x)) (phones r))
               else results)
            (data self) results
      | Phone =>
          fold_left
            (fun results '(name, r) =>
               fold_left
                 (fun results phone =>
                    if pyval_eqb (value (deref h q)) (value (deref h phone))
                    then RVal name
                    else results)
                 (phones r) results)
            (data self) results
      | _ => results
      end
  | Val _ => results
  end.

(** [iter(d)] and [next(it)] on a dict. *)
Definition dict_iter_new (d : list (pyval * record)) : dict_iter :=
  DictIter (List.length d) 0.

Definition dict_iter_next (d : list (pyval * record)) (it : dict_iter)
  : result pyval * dict_iter :=
  match it with
  | DictIter used pos =>
      if negb (Nat.eqb (List.length d) used)
      then (Raise RuntimeError, DictIterBroken)
      else
        match nth_error d pos with
        | Some (k, _) => (Ok k, DictIter used (S pos))
        | None => (Raise StopIteration, DictIterSpent)
        end
  | DictIterSpent => (Raise StopIteration, DictIterSpent)
  | DictIterBroken => (Raise RuntimeError, DictIterBroken)
  end.

Definition AddressBook_iter (self : AddressBook) : AddressBook :=
  mk_book (data self) (Some (dict_iter_new (data self))).

(** ** Text formatting *)

Definition nl : string := String "010"%char EmptyString.

Fixpoint repeat_char (c : ascii) (n : nat) : string :=
  match n with
  | O => EmptyString
  | S n' => String c (repeat_char c n')
  end.

Inductive align : Type := AlignLeft | AlignRight | AlignCenter.

(** Padding with spaces to [width]; centring puts the odd space on the
    right, and a longer string is left as it is. *)
Definition pad (a : align) (width : nat) (s : string) : string :=
  let total := (width - String.length s)%nat in
  match a with
  | AlignLeft => s ++ repeat_char " " total
  | AlignRight => repeat_char " " total ++ s
  | AlignCenter =>
      let left := (total / 2)%nat in
      repeat_char " " left ++ s ++ repeat_char " " (total - left)
  end.

Definition str_of_Z (z : Z) : string := NilZero.string_of_int (Z.to_int z).

Definition spec_text (a : align) (width : nat) : string :=
  (match a with
   | AlignLeft => "<"
   | AlignRight => ">"
   | AlignCenter => "^"
   end) ++ str_of_Z (Z.of_nat width).

(** The most decimal digits an int may have to be written as text
    ([sys.get_int_max_str_digits()], 4300 by default); the sign does not
    count. *)
Definition int_max_str_digits : Z := 4300.

Definition int_str_digits (z : Z) : Z :=
  Z.of_nat (String.length (str_of_Z (Z.abs z))).

(** One replacement field [{:<w}], [{:>w}] or [{:^w}] of [str.format].
    [None] refuses a format specification; an int of more digits than
    the limit cannot be written and raises [ValueError]; a datetime
    passes the specification to [strftime], which copies one without
    directives. *)
Definition format_value (a : align) (width : nat) (v : pyval)
  : result string :=
  match v with
  | PyNone => Raise TypeError
  | PyInt z =>
      if int_max_str_digits <? int_str_digits z
      then Raise ValueError
      else Ok (pad a width (str_of_Z z))
  | PyStr s => Ok (pad a width s)
  | PyDatetime _ => Ok (spec_text a width)
  end.

Definition zero_pad (width : nat) (z : Z) : string :=
  let s := str_of_Z z in
  repeat_char "0" (width - String.length s) ++ s.

(** [strftime("%d.%m.%Yp")]: day and month with two digits, and the
    year in decimal as the C library writes it, without padding. *)
Definition strftime_birthday (d : datetime) : string :=
  zero_pad 2 (day d) ++ "." ++ zero_pad 2 (month d) ++ "."
  ++ str_of_Z (year d) ++ "p".

Definition rule : string := repeat_char "-" 70 ++ nl.

Definition header : string :=
  "|" ++ pad AlignCenter 33 "User" ++ "|" ++ pad AlignCenter 20 "Phones"
  ++ "|" ++ pad AlignCenter 13 "Birthday" ++ "|" ++ nl.

(** ['| {:<32}|{:>19} |{:^13}|\n'.format(name, phone, birthday)] *)
Definition first_row (name phone : pyval) (birthday : string)
  : result string :=
  c1 <- format_value AlignLeft 32 name ;;
  c2 <- format_value AlignRight 19 phone ;;
  Ok ("| " ++ c1 ++ "|" ++ c2 ++ " |" ++ pad AlignCenter 13 birthday
      ++ "|" ++ nl).

(** ['|{:<33}|{:>19} |{:^13}|\n'.format(' ', phone, ' ')] *)
Definition other_row (phone : pyval) : result string :=
  c2 <- format_value AlignRight 19 phone ;;
  Ok ("|" ++ pad AlignLeft 33 " " ++ "|" ++ c2 ++ " |"
      ++ pad AlignCenter 13 " " ++ "|" ++ nl).

(** The loop [for i in range(len(user.phones))], from index [i] on. *)
Fixpoint phone_rows (h : heap) (name : pyval) (birthday : string)
  (i : nat) (ps : list loc) (representation_record : string)
  : result string :=
  match ps with
  | [] => Ok representation_record
  | p :: ps' =>
      row <- (if Nat.eqb i 0
              then first_row name (value (deref h p)) birthday
              else other_row (value (deref h p))) ;;
      phone_rows h name birthday (S i) ps' (representation_record ++ row)
  end.

(** The body of [for name, user in items]. *)
Definition contact_rows (h : heap) (representation_record : string)
  (item : pyval * record) : result string :=
  let '(name, user) := item in
  birthday <-
    match birthday user with
    | Some b =>
        d <- as_datetime (value (deref h b)) ;; Ok (strftime_birthday d)
    | None => Ok ""
    end ;;
  representation_record <-
    phone_rows h name birthday 0 (phones user) representation_record ;;
  representation_record <-
    match phones user with
    | [] =>
        row <- first_row name (PyStr " ") birthday ;;
        Ok (representation_record ++ row)
    | _ :: _ => Ok representation_record
    end ;;
  Ok (representation_record ++ rule).

Fixpoint render_items (h : heap) (items : list (pyval * record))
  (representation_record : string) : result string :=
  match items with
  | [] => Ok representation_record
  | item :: items' =>
      representation_record <- contact_rows h representation_record item ;;
      render_items h items' representation_record
  end.

Definition render_page (h : heap) (items : list (pyval * record))
  : result string :=
  render_items h items (rule ++ header ++ rule).

(** ** Pages *)

Definition N : Z := 10.

(** The loop [for _ in range(n)] of [__next__] with [k] rounds to go: the
    exception that ended it, if one did, the items gathered so far and the
    iterator as it was left. *)
Fixpoint next_items (d : list (pyval * record)) (k : nat)
  (it : option dict_iter) (items : list (pyval * record))
  : option exn * list (pyval * record) * option dict_iter :=
  match k with
  | O => (None, items, it)
  | S k' =>
      match it with
      | None => (Some AttributeError, items, it)
      | Some i =>
          match dict_iter_next d i with
          | (Raise e, i') => (Some e, items, Some i')
          | (Ok key, i') =>
              match dict_getitem d key with
              | Raise e => (Some e, items, Some i')
              | Ok r => next_items d k' (Some i') (items ++ [(key, r)])%list
              end
          end
      end
  end.

(** [__next__(self, n)]: the page or the exception, and the book with its
    iterator advanced. *)
Definition AddressBook_next (h : heap) (self : AddressBook) (n : Z)
  : result string * AddressBook :=
  let '(raised, items, it) :=
    next_items (data self) (Z.to_nat n) (keys_iter self) [] in
  let self' := mk_book (data self) it in
  let gathered :=
    match raised with
    | None => Ok items
    | Some e =>
        if exn_eqb e StopIteration
        then match items with
             | [] => Raise StopIteration
             | _ :: _ => Ok items
             end
        else Raise e
    end in
  (items <- gathered ;; render_page h items, self').

(** ** Definitions used to state the properties *)

(** The number of digits of a string. *)
Definition digit_count (s : string) : Z := len (filter_str isdigit s).

(** One assignment attempt on a field object, made when the clock shows
    [fst a]: a setter that raises has assigned nothing. *)
Definition attempt (self : field_obj) (a : datetime * pyval) : field_obj :=
  match value_setter (fst a) self (snd a) with
  | Ok o => o
  | Raise _ => self
  end.

(** The value a field holds is none, or one of the attempted values, which
    its validation rule accepted when the attempt was made. *)
Definition holds_validated (o : field_obj) (tried : list (datetime * pyval))
  : Prop :=
  value o = PyNone
  \/ exists now, In (now, value o) tried
                 /\ valid_value (cls o) now (value o) = Ok true.

(** The last element of a list that satisfies [f]. *)
Fixpoint find_last {A : Type} (f : A -> bool) (l : list A) : option A :=
  match l with
  | [] => None
  | x :: l' =>
      match find_last f l' with
      | Some y => Some y
      | None => if f x then Some x else None
      end
  end.

(** The record stores a phone whose value equals [v]. *)
Definition holds_phone (h : heap) (v : pyval) (r : record) : bool :=
  existsb (fun p => pyval_eqb v (value (deref h p))) (phones r).

Definition phone_values (h : heap) (r : record) : list pyval :=
  map (fun p => value (deref h p)) (phones r).

(** The value of the phone object [p] equals that of [q]. *)
Definition same_value (h : heap) (q p : loc) : bool :=
  pyval_eqb (value (deref h q)) (value (deref h p)).

(** What [edit_phone] does with one stored phone. *)
Definition edit_one (h : heap) (old_phone new_phone p : loc) : loc :=
  if same_value h old_phone p then new_phone else p.

(** No two neighbours of the list both satisfy [f]. *)
Fixpoint no_adjacent {A : Type} (f : A -> bool) (l : list A) : bool :=
  match l with
  | [] => true
  | x :: l' =>
      match l' with
      | [] => true
      | y :: _ => negb (f x && f y) && no_adjacent f l'
      end
  end.

(** The reading of [edit_phone] that replaces the first match only. *)
Fixpoint replace_first (f : loc -> bool) (new_phone : loc) (l : list loc)
  : list loc :=
  match l with
  | [] => []
  | p :: l' =>
      if f p then new_phone :: l' else p :: replace_first f new_phone l'
  end.

(** A calendar date and a time of day in range, as every datetime object
    has them. *)
Definition valid_datetime (t : datetime) : Prop :=
  check_date_fields (year t) (month t) (day t) = true
  /\ 0 <= hour t < 24 /\ 0 <= minute t < 60 /\ 0 <= second t < 60
  /\ 0 <= microsecond t < 1000000.

Definition is_midnight (t : datetime) : Prop :=
  hour t = 0 /\ minute t = 0 /\ second t = 0 /\ microsecond t = 0.



(** The keys the iterator of a book has still to give. *)
Definition remaining (self : AddressBook) : list (pyval * record) :=
  match keys_iter self with
  | Some (DictIter used pos) =>
      if Nat.eqb (List.length (data self)) used
      then skipn pos (data self) else []
  | _ => []
  end.

(** The iterator is in step with the dict it was made from. *)
Definition in_step (self : AddressBook) : Prop :=
  match keys_iter self with
  | Some (DictIter used pos) =>
      used = List.length (data self) /\ (pos <= used)%nat
  | Some DictIterSpent => True
  | _ => False
  end.

(** What a page request gives when [items] are the records it gathers:
    the end of the iteration when there are none, their page otherwise. *)
Definition page_or_stop (h : heap) (items : list (pyval * record))
  : result string :=
  match items with
  | [] => Raise StopIteration
  | _ :: _ => render_page h items
  end.

(** ** Concrete books and records used in the examples *)

Definition clock : datetime := mk_datetime 2023 8 24 14 30 0 0.

(** [o] built by a constructor call, or the unset base field. *)
Definition built (r : result field_obj) : field_obj :=
  match r with
  | Ok o => o
  | Raise _ => mk_field Field PyNone
  end.

(** 0: [Name('Bill')], 1 and 2: two objects [Phone('1234567890')],
    3: [Phone('0987654321')], 4: [Phone('abc')],
    5: [Birthday(datetime(1991, 8, 24))],
    6: [Birthday(datetime(2000, 2, 29))], 7: [Name('John Doe')]. *)
Definition sample_heap : heap :=
  [ built (new Name clock (PyStr "Bill"));
    built (new Phone clock (PyStr "1234567890"));
    built (new Phone clock (PyStr "1234567890"));
    built (new Phone clock (PyStr "0987654321"));
    built (new Phone clock (PyStr "abc"));
    built (new Birthday clock (PyDatetime (mk_datetime 1991 8 24 0 0 0 0)));
    built (new Birthday clock (PyDatetime (mk_datetime 2000 2 29 0 0 0 0)));
    built (new Name clock (PyStr "John Doe")) ].

(** [Record(Name('Bill'), Phone('1234567890'))] after
    [add_phone(Phone('1234567890'))]: two phone objects of equal value. *)
Definition two_equal_phones : record := mk_record 0%nat [1%nat; 2%nat] None.

(** Bill with those two phones, then John Doe with ['0987654321'] and a
    birthday. *)
Definition sample_book : AddressBook :=
  add_record sample_heap
    (add_record sample_heap AddressBook_init two_equal_phones)
    (Record_init 7%nat (Some 3%nat) (Some 5%nat)).

(** Twenty-five contacts [user1] ... [user25] without phones, added in
    that order. *)
Definition heap25 : heap :=
  map (fun i => built (new Name clock (PyStr ("user" ++ str_of_Z (Z.of_nat i)))))
      (seq 1 25).

Definition book25 : AddressBook :=
  fold_left (fun ab i => add_record heap25 ab (Record_init i None None))
            (seq 0 25) AddressBook_init.

(** ** Further definitions used to state properties *)

(** What iterating and removing in place amounts to on distinct objects:
    a match is dropped and its right neighbour is stepped over, so it
    stays whatever its value. *)
Fixpoint remove_stepping (f : loc -> bool) (l : list loc) : list loc :=
  match l with
  | [] => []
  | x :: l' =>
      if f x then
        match l' with
        | [] => []
        | y :: l'' => y :: remove_stepping f l''
        end
      else x :: remove_stepping f l'
  end.

(** The book after [i] page requests of size [n]. *)
Fixpoint after_pages (h : heap) (n : Z) (i : nat) (book : AddressBook)
  : AddressBook :=
  match i with
  | O => book
  | S i' => snd (AddressBook_next h (after_pages h n i' book) n)
  end.

(** The time of day in microseconds. *)
Definition time_of_day (t : datetime) : Z :=
  (second t + minute t * 60 + hour t * 3600) * 1000000 + microsecond t.

(** The date [(m1, d1)] comes before [(m2, d2)] in the calendar. *)
Definition date_before (m1 d1 m2 d2 : Z) : Prop :=
  m1 < m2 \/ (m1 = m2 /\ d1 < d2).

(** Lines, each closed by a newline, put together. *)
Fixpoint unlines (rows : list string) : string :=
  match rows with
  | [] => ""
  | r :: rows' => r ++ nl ++ unlines rows'
  end.

(** ** Digits, told apart from the code's test *)

(** The ten decimal digits. *)
Definition decimal_digit_characters : list ascii :=
  list_ascii_of_string "0123456789".

(** The characters below 256 that [str.isdigit] accepts, one by one: the
    decimal digits and the superscripts two, three and one (U+00B2,
    U+00B3, U+00B9). *)
Definition digit_characters : list ascii :=
  decimal_digit_characters
  ++ [ascii_of_nat 178; ascii_of_nat 179; ascii_of_nat 185].

(** How many characters of [s] are among [cs]. *)
Fixpoint count_chars (cs : list ascii) (s : string) : Z :=
  match s with
  | EmptyString => 0
  | String c s' =>
      (if existsb (Ascii.eqb c) cs then 1 else 0) + count_chars cs s'
  end.

(** How many items of a list satisfy [f]. *)
Fixpoint count_if {A : Type} (f : A -> bool) (l : list A) : Z :=
  match l with
  | [] => 0
  | x :: l' => (if f x then 1 else 0) + count_if f l'
  end.

(** [Phone.valid_value] on a str given as the list of its code points,
    whatever the type of code points and whatever [str.isdigit] accepts
    among them. *)
Section PhoneRule.
Context {char : Type} (isdigit_char : char -> bool).

Definition Phone_valid_value (value : list char) : bool :=
  let phone := filter isdigit_char value in
  (8 <? Z.of_nat (List.length phone))
  && (Z.of_nat (List.length phone) <? 13)
  && (Z.of_nat (List.length value) <? 20).

End PhoneRule.

(** Nine times the superscript two: no decimal digit in it. *)
Definition nine_superscripts : string := repeat_char (ascii_of_nat 178) 9.

(** ** The page as the specification words it *)

(** A contact as the page shows it: name, phones, birthday. *)
Record contact : Type := mk_contact {
  contact_name : string;
  contact_phones : list string;
  contact_birthday : option datetime
}.

(** The entry of the book is the contact [c]: its key is the name, its
    phones hold the phone strings in order, and its birthday is absent or
    holds the date, which has a year of four digits. *)
Definition represents (h : heap) (item : pyval * record) (c : contact)
  : Prop :=
  fst item = PyStr (contact_name c)
  /\ map (fun p => value (deref h p)) (phones (snd item))
     = map PyStr (contact_phones c)
  /\ match birthday (snd item), contact_birthday c with
     | Some b, Some d =>
         value (deref h b) = PyDatetime d
         /\ 1 <= day d <= 31 /\ 1 <= month d <= 12
         /\ 1000 <= year d <= 9999
     | None, None => True
     | _, _ => False
     end.

Definition spaces (n : nat) : string :=
  string_of_list_ascii (repeat " "%char n).

Definition ljust (width : nat) (s : string) : string :=
  s ++ spaces (width - String.length s).

Definition rjust (width : nat) (s : string) : string :=
  spaces (width - String.length s) ++ s.

(** Centred, the odd space on the right. *)
Definition centered (width : nat) (s : string) : string :=
  let total := (width - String.length s)%nat in
  spaces (total / 2) ++ s ++ spaces (total - total / 2).

Definition digit_char (z : Z) : ascii := ascii_of_nat (48 + Z.to_nat z).

Definition two_digits (z : Z) : string :=
  String (digit_char (z / 10)) (String (digit_char (z mod 10)) "").

Definition four_digits (z : Z) : string :=
  String (digit_char (z / 1000))
    (String (digit_char (z / 100 mod 10))
       (String (digit_char (z / 10 mod 10))
          (String (digit_char (z mod 10)) ""))).

(** [DD.MM.YYYYp], or nothing. *)
Definition birthday_text (b : option datetime) : string :=
  match b with
  | Some d =>
      two_digits (day d) ++ "." ++ two_digits (month d) ++ "."
      ++ four_digits (year d) ++ "p"
  | None => ""
  end.

(** A line of 70 [-]. *)
Definition separator : string :=
  string_of_list_ascii (repeat "-"%char 70).

Definition heading_line : string :=
  "|" ++ centered 33 "User" ++ "|" ++ centered 20 "Phones" ++ "|"
  ++ centered 13 "Birthday" ++ "|".

(** The row of a contact's first phone. *)
Definition name_line (name phone birthday : string) : string :=
  "| " ++ ljust 32 name ++ "|" ++ rjust 19 phone ++ " |"
  ++ centered 13 birthday ++ "|".

(** The row of a further phone: blank name and birthday columns. *)
Definition phone_line (phone : string) : string :=
  "|" ++ spaces 33 ++ "|" ++ rjust 19 phone ++ " |" ++ spaces 13 ++ "|".

(** One row per phone, a single row with an empty phone column for a
    contact without phones, then a separator. *)
Definition contact_lines (c : contact) : list string :=
  (match contact_phones c with
   | [] =>
       [name_line (contact_name c) "" (birthday_text (contact_birthday c))]
   | p :: ps =>
       name_line (contact_name c) p (birthday_text (contact_birthday c))
       :: map phone_line ps
   end ++ [separator])%list.

Definition page_lines (cs : list contact) : list string :=
  ([separator; heading_line; separator] ++ flat_map contact_lines cs)%list.

(** The string holds the character. *)
Fixpoint has_char (c : ascii) (s : string) : bool :=
  match s with
  | EmptyString => false
  | String c' s' => Ascii.eqb c' c || has_char c s'
  end.

Definition newline : ascii := "010"%char.

(** The cells of a contact fit their columns and hold no newline: a name
    of at most 32 characters and phones of at most 19. *)
Definition fits_columns (c : contact) : Prop :=
  (String.length (contact_name c) <= 32)%nat
  /\ has_char newline (contact_name c) = false
  /\ Forall (fun p => (String.length p <= 19)%nat
                      /\ has_char newline p = false)
            (contact_phones c).

(** The number of lines the contacts take on a page. *)
Fixpoint contact_line_count (cs : list contact) : nat :=
  match cs with
  | [] => 3
  | c :: cs' =>
      (Nat.max 1 (List.length (contact_phones c)) + 1
       + contact_line_count cs')%nat
  end.

(** [heap25] and a [Phone('abc')], and the 25 contacts again, the first
    built as [Record(Name('user1'), Phone('abc'))]. *)
Definition heap25_abc : heap :=
  (heap25 ++ [built (new Phone clock (PyStr "abc"))])%list.

Definition book25_abc : AddressBook :=
  fold_left
    (fun ab i =>
       add_record heap25_abc ab
         (Record_init i (if Nat.eqb i 0 then Some 25%nat else None) None))
    (seq 0 25) AddressBook_init.

(** The contacts of [book25]. *)
Definition contacts25 : list contact :=
  map (fun i => mk_contact ("user" ++ str_of_Z (Z.of_nat i)) [] None)
      (seq 1 25).

(** * Properties *)

Local Open Scope list_scope.

(** ** Equality of values *)

Lemma cmp_fields_eq (a b : list Z) :
  List.length a = List.length b -> cmp_fields a b = Eq -> a = b.
Proof.
  revert b; induction a as [|x a IH]; intros [|y b] Hlen Hc;
    simpl in *; try discriminate; auto.
  destruct (x ?= y) eqn:E; try discriminate.
  apply Z.compare_eq in E; subst y.
  f_equal; apply IH; [lia | assumption].
Qed.

Lemma cmp_fields_refl (a : list Z) : cmp_fields a a = Eq.
Proof.
  induction a as [|x a IH]; simpl; auto.
  now rewrite Z.compare_refl.
Qed.

Lemma datetime_eqb_eq (a b : datetime) : datetime_eqb a b = true <-> a = b.
Proof.
  unfold datetime_eqb; split.
  - destruct (cmp_fields (fields a) (fields b)) eqn:E; try discriminate.
    intros _; apply cmp_fields_eq in E; [|reflexivity].
    destruct a, b; unfold fields in E; simpl in E; congruence.
  - intros ->; now rewrite cmp_fields_refl.
Qed.

Lemma pyval_eqb_eq (a b : pyval) : pyval_eqb a b = true <-> a = b.
Proof.
  destruct a, b; simpl; split; intros H;
    try discriminate; try reflexivity.
  - apply Z.eqb_eq in H; congruence.
  - injection H as ->; apply Z.eqb_refl.
  - apply String.eqb_eq in H; congruence.
  - injection H as ->; apply String.eqb_refl.
  - apply datetime_eqb_eq in H; congruence.
  - injection H as ->; now apply datetime_eqb_eq.
Qed.

Lemma pyval_eqb_refl (a : pyval) : pyval_eqb a a = true.
Proof. now apply pyval_eqb_eq. Qed.

Lemma pyval_eqb_neq (a b : pyval) : pyval_eqb a b = false <-> a <> b.
Proof.
  rewrite <- pyval_eqb_eq; destruct (pyval_eqb a b); split;
    congruence.
Qed.

(** ** Fields *)

Lemma valid_value_verdict (c : field_class) (now : datetime) (v : pyval) :
  c <> Phone \/ (exists s, v = PyStr s) ->
  exists ok, valid_value c now v = Ok ok.
Proof.
  intros [Hc | [s ->]].
  - destruct c; try congruence; simpl; eauto.
    destruct v; eauto.
  - destruct c; simpl; eauto.
Qed.

Lemma value_setter_accept (now : datetime) (self : field_obj) (val : pyval) :
  valid_value (cls self) now val = Ok true ->
  value_setter now self val = Ok (mk_field (cls self) val).
Proof. unfold value_setter; now intros ->. Qed.

Lemma value_setter_reject (now : datetime) (self : field_obj) (val : pyval) :
  valid_value (cls self) now val = Ok false ->
  value_setter now self val = Ok self.
Proof. unfold value_setter; now intros ->. Qed.

Lemma value_setter_cls (now : datetime) (self o : field_obj) (val : pyval) :
  value_setter now self val = Ok o -> cls o = cls self.
Proof.
  unfold value_setter.
  destruct (valid_value (cls self) now val) as [[|]|]; simpl;
    intros H; inversion H; reflexivity.
Qed.

Lemma attempt_cls (self : field_obj) (a : datetime * pyval) :
  cls (attempt self a) = cls self.
Proof.
  unfold attempt.
  destruct (value_setter (fst a) self (snd a)) eqn:E; auto.
  eapply value_setter_cls; eauto.
Qed.

Lemma holds_validated_weaken (o : field_obj)
  (tried tried' : list (datetime * pyval)) :
  incl tried tried' -> holds_validated o tried -> holds_validated o tried'.
Proof.
  intros Hi [H | (now & Hin & Hv)]; [now left | right].
  exists now; split; auto.
Qed.

Lemma attempt_holds_validated (self : field_obj) (a : datetime * pyval)
  (tried : list (datetime * pyval)) :
  holds_validated self tried ->
  holds_validated (attempt self a) (tried ++ [a]).
Proof.
  intros H.
  unfold attempt, value_setter.
  destruct a as [now val]; simpl.
  destruct (valid_value (cls self) now val) as [[|]|] eqn:E; simpl.
  - right; exists now; simpl; split; auto.
    apply in_or_app; right; now left.
  - eapply holds_validated_weaken; [|exact H].
    apply incl_appl, incl_refl.
  - eapply holds_validated_weaken; [|exact H].
    apply incl_appl, incl_refl.
Qed.

Lemma attempts_hold_validated (attempts tried : list (datetime * pyval))
  (o : field_obj) :
  holds_validated o tried ->
  holds_validated (fold_left attempt attempts o) (tried ++ attempts).
Proof.
  revert tried o; induction attempts as [|a attempts IH]; intros tried o H.
  - simpl; now rewrite app_nil_r.
  - simpl.
    replace (tried ++ a :: attempts) with ((tried ++ [a]) ++ attempts)
      by now rewrite <- app_assoc.
    apply IH, attempt_holds_validated, H.
Qed.

Lemma new_holds_validated (c : field_class) (now : datetime) (v : pyval)
  (o : field_obj) :
  new c now v = Ok o -> cls o = c /\ holds_validated o [(now, v)].
Proof.
  unfold new, value_setter; simpl.
  destruct (valid_value c now v) as [[|]|] eqn:E; simpl;
    intros H; inversion H; subst; simpl; split; auto.
  - right; exists now; simpl; auto.
  - now left.
Qed.

(** C5: a field never holds a value its validation rule rejected.  After a
    successful construction and any sequence of assignment attempts, the
    field keeps its class and holds either nothing or one of the attempted
    values, accepted by the rule of its class at the time of the attempt.
    Each attempt on which the rule gives a verdict follows it: a rejected
    value leaves the field as it was without raising, an accepted value is
    stored; and the rule gives a verdict on every value for the base
    field, Name and Birthday, and on every string for Phone. *)
Theorem field_holds_only_validated_values
  (c : field_class) (now0 : datetime) (v0 : pyval) (o0 : field_obj)
  (attempts : list (datetime * pyval)) :
  new c now0 v0 = Ok o0 ->
  let o := fold_left attempt attempts o0 in
  cls o = c
  /\ holds_validated o ((now0, v0) :: attempts)
  /\ (valid_value c now0 v0 = Ok false -> value o0 = PyNone)
  /\ (valid_value c now0 v0 = Ok true -> value o0 = v0)
  /\ (forall now self val,
        valid_value (cls self) now val = Ok false ->
        value_setter now self val = Ok self)
  /\ (forall now self val,
        valid_value (cls self) now val = Ok true ->
        value_setter now self val = Ok (mk_field (cls self) val))
  /\ (forall c' now val,
        c' <> Phone \/ (exists s, val = PyStr s) ->
        exists ok, valid_value c' now val = Ok ok).
Proof.
  intros Hnew o.
  destruct (new_holds_validated _ _ _ _ Hnew) as [Hc Hv].
  repeat split.
  - subst o; clear Hv Hnew; revert o0 Hc.
    induction attempts as [|a l IH]; intros o0 Hc; simpl; auto.
    apply IH; now rewrite attempt_cls.
  - apply (attempts_hold_validated attempts [(now0, v0)] o0 Hv).
  - intros E; unfold new, value_setter in Hnew; simpl in Hnew.
    rewrite E in Hnew; simpl in Hnew; now inversion Hnew.
  - intros E; unfold new, value_setter in Hnew; simpl in Hnew.
    rewrite E in Hnew; simpl in Hnew; now inversion Hnew.
  - intros; now apply value_setter_reject.
  - intros; now apply value_setter_accept.
  - intros; now apply valid_value_verdict.
Qed.

Lemma field_holds_only_validated_values_witness :
  let attempts :=
    [(clock, PyStr "abc"); (clock, PyStr "0987654321"); (clock, PyStr "12")] in
  let o0 := mk_field Phone (PyStr "1234567890") in
  new Phone clock (PyStr "1234567890") = Ok o0
  /\ value (fold_left attempt attempts o0) = PyStr "0987654321"
  /\ holds_validated (fold_left attempt attempts o0)
       ((clock, PyStr "1234567890") :: attempts).
Proof.
  intros attempts o0.
  split; [reflexivity | split; [reflexivity |]].
  exact (proj1 (proj2 (field_holds_only_validated_values
                         Phone clock (PyStr "1234567890") o0 attempts
                         eq_refl))).
Defined.

(** The constructor in terms of what the code's own filter leaves. *)
Lemma phone_holds_string_iff_valid (now : datetime) (s : string) :
  new Phone now (PyStr s) =
  Ok (mk_field Phone
        (if (9 <=? digit_count s) && (digit_count s <=? 12)
            && (len s <? 20)
         then PyStr s else PyNone)).
Proof.
  unfold new, value_setter, valid_value, digit_count; simpl.
  replace (8 <? len (filter_str isdigit s))
    with (9 <=? len (filter_str isdigit s))
    by (destruct (9 <=? _) eqn:E1, (8 <? _) eqn:E2; auto; lia).
  replace (len (filter_str isdigit s) <? 13)
    with (len (filter_str isdigit s) <=? 12)
    by (destruct (_ <=? 12) eqn:E1, (_ <? 13) eqn:E2; auto; lia).
  now destruct (_ && _).
Qed.

(** [str.isdigit] below 256, character by character. *)
Lemma isdigit_digit_characters (c : ascii) :
  isdigit c = existsb (Ascii.eqb c) digit_characters.
Proof.
  destruct c as [b0 b1 b2 b3 b4 b5 b6 b7].
  destruct b0, b1, b2, b3, b4, b5, b6, b7; reflexivity.
Qed.

(** Stripping the other characters leaves as many as there are digits. *)
Lemma filter_str_isdigit_count (s : string) :
  len (filter_str isdigit s) = count_chars digit_characters s.
Proof.
  unfold len; induction s as [|c s IH]; cbn [count_chars filter_str];
    [reflexivity|].
  rewrite <- isdigit_digit_characters.
  destruct (isdigit c); cbn [String.length]; lia.
Qed.

Lemma filter_length_count_if {A : Type} (f : A -> bool) (l : list A) :
  Z.of_nat (List.length (filter f l)) = count_if f l.
Proof.
  induction l as [|x l IH]; simpl; [reflexivity|].
  destruct (f x); simpl List.length; lia.
Qed.

Lemma list_ascii_of_filter_str (f : ascii -> bool) (s : string) :
  list_ascii_of_string (filter_str f s)
  = filter f (list_ascii_of_string s).
Proof.
  induction s as [|c s IH]; simpl; [reflexivity|].
  destruct (f c); simpl; now rewrite IH.
Qed.

Lemma list_ascii_of_string_length (s : string) :
  List.length (list_ascii_of_string s) = String.length s.
Proof.
  induction s as [|c s IH]; simpl; [reflexivity | now rewrite IH].
Qed.

(** C9, amended: [Phone(s)] holds [s] exactly when 9 to 12 of the
    characters of [s] are digits in the sense of [str.isdigit] and [s] has
    fewer than 20 characters, and holds nothing otherwise.  For a string
    of code points below 256 these digits are the decimal digits 0 to 9
    and the superscripts two, three and one, counted here character by
    character.  For a str over any code points the rule of lines 40 to
    43, which the constructor applies, says the same of whatever
    [str.isdigit] accepts. *)
Theorem Phone_holds_string_iff_9_to_12_isdigit_characters :
  (forall now s,
     new Phone now (PyStr s) =
     Ok (mk_field Phone
           (if (9 <=? count_chars digit_characters s)
               && (count_chars digit_characters s <=? 12)
               && (len s <? 20)
            then PyStr s else PyNone)))
  /\ (forall now s,
        valid_value Phone now (PyStr s)
        = Ok (Phone_valid_value isdigit (list_ascii_of_string s)))
  /\ (forall (char : Type) (isdigit_char : char -> bool)
             (value : list char),
        Phone_valid_value isdigit_char value
        = (9 <=? count_if isdigit_char value)
          && (count_if isdigit_char value <=? 12)
          && (Z.of_nat (List.length value) <? 20)).
Proof.
  split; [|split].
  - intros now s.
    rewrite phone_holds_string_iff_valid; unfold digit_count.
    now rewrite filter_str_isdigit_count.
  - intros now s; unfold Phone_valid_value; simpl.
    rewrite <- list_ascii_of_filter_str, !list_ascii_of_string_length.
    reflexivity.
  - intros char isdigit_char value; unfold Phone_valid_value.
    rewrite filter_length_count_if.
    set (n := count_if isdigit_char value).
    replace (8 <? n) with (9 <=? n)
      by (destruct (9 <=? n) eqn:E1, (8 <? n) eqn:E2; auto; lia).
    replace (n <? 13) with (n <=? 12)
      by (destruct (n <=? 12) eqn:E1, (n <? 13) eqn:E2; auto; lia).
    reflexivity.
Qed.

Lemma Phone_holds_string_iff_9_to_12_isdigit_characters_witness :
  new Phone clock (PyStr "+38(098)765-43-31")
  = Ok (mk_field Phone (PyStr "+38(098)765-43-31"))
  /\ new Phone clock (PyStr "phone 12345678") = Ok (mk_field Phone PyNone)
  /\ new Phone clock (PyStr "1 2 3 4 5 6 7 8 9 0 ")
     = Ok (mk_field Phone PyNone).
Proof.
  pose proof (proj1 Phone_holds_string_iff_9_to_12_isdigit_characters clock)
    as H.
  split; [|split].
  - exact (H "+38(098)765-43-31").
  - exact (H "phone 12345678").
  - exact (H "1 2 3 4 5 6 7 8 9 0 ").
Defined.

(** C9 as stated fails: a string of nine superscript twos has no decimal
    digit in it, and [Phone] holds it, for [str.isdigit] accepts the
    superscript. *)
Lemma Phone_holds_nine_superscripts :
  count_chars decimal_digit_characters nine_superscripts = 0
  /\ len nine_superscripts = 9
  /\ new Phone clock (PyStr nine_superscripts)
     = Ok (mk_field Phone (PyStr nine_superscripts))
  /\ new Phone clock (PyStr nine_superscripts)
     <> Ok (mk_field Phone
              (if (9 <=? count_chars decimal_digit_characters
                           nine_superscripts)
                  && (count_chars decimal_digit_characters
                        nine_superscripts <=? 12)
                  && (len nine_superscripts <? 20)
               then PyStr nine_superscripts else PyNone)).
Proof.
  repeat split; try reflexivity.
  vm_compute; intros H; discriminate H.
Qed.

Example Phone_formatted :
  new Phone clock (PyStr "+38(098)765-43-31")
  = Ok (mk_field Phone (PyStr "+38(098)765-43-31")).
Proof. reflexivity. Qed.

Example Phone_too_short :
  new Phone clock (PyStr "12345678") = Ok (mk_field Phone PyNone).
Proof. reflexivity. Qed.

Example Phone_too_long :
  new Phone clock (PyStr "1 2 3 4 5 6 7 8 9 0 ")
  = Ok (mk_field Phone PyNone).
Proof. reflexivity. Qed.

(** ** Record *)

(** C2, at the failing input [Record(Name('Bill'), Phone('abc'))]: the
    phone holds no value, and the new record lists it all the same. *)
Theorem Record_init_keeps_invalid_phone :
  new Phone clock (PyStr "abc") = Ok (deref sample_heap 4%nat)
  /\ value (deref sample_heap 4%nat) = PyNone
  /\ phones (Record_init 0%nat (Some 4%nat) None) = [4%nat].
Proof. repeat split; reflexivity. Qed.

(** Whatever the supplied phone holds, the constructor lists it. *)
Lemma Record_init_phones (n p : loc) (b : option loc) :
  phones (Record_init n (Some p) b) = [p].
Proof. reflexivity. Qed.

(** [add_phone], the sibling path, does check the value. *)
Lemma add_phone_valued (h : heap) (self : record) (p : loc) :
  add_phone h self (Ref p) =
  Ok (if truthy (value (deref h p))
      then set_phones self (phones self ++ [p]) else self).
Proof.
  unfold add_phone; now destruct (truthy _).
Qed.

(** C10: [add_phone] with an argument that is not a field (it has no
    [value] attribute, as [None] has none) returns without raising and
    leaves the record as it was, as it does with a field that holds no
    value. *)
Theorem add_phone_ignores_non_field_and_unset
  (h : heap) (self : record) :
  (forall v, add_phone h self (Val v) = Ok self)
  /\ (forall p, value (deref h p) = PyNone ->
                add_phone h self (Ref p) = Ok self).
Proof.
  split.
  - reflexivity.
  - intros p Hp; rewrite add_phone_valued, Hp; reflexivity.
Qed.

Lemma add_phone_ignores_non_field_and_unset_witness :
  let self := Record_init 0%nat (Some 1%nat) None in
  add_phone sample_heap self (Val PyNone) = Ok self
  /\ add_phone sample_heap self (Ref 4%nat) = Ok self.
Proof.
  intros self; split.
  - exact (proj1 (add_phone_ignores_non_field_and_unset sample_heap self)
             PyNone).
  - exact (proj2 (add_phone_ignores_non_field_and_unset sample_heap self)
             4%nat eq_refl).
Defined.

Lemma two_equal_phones_built :
  add_phone sample_heap (Record_init 0%nat (Some 1%nat) None) (Ref 2%nat)
  = Ok two_equal_phones.
Proof. reflexivity. Qed.

(** ** Loops over a list that is mutated meanwhile *)

Section ForListFacts.
Context {A : Type} (body : nat -> A -> list A -> result (list A)).

Hypothesis body_no_longer :
  forall i x l l', body i x l = Ok l' ->
                   (List.length l' <= List.length l)%nat.

(** Once the fuel covers the items still ahead, more fuel changes
    nothing: the loop has ended by itself. *)
Lemma for_list_more_fuel (fuel k i : nat) (l : list A) :
  (List.length l <= i + fuel)%nat ->
  for_list body (fuel + k) i l = for_list body fuel i l.
Proof.
  revert i l; induction fuel as [|fuel IH]; intros i l Hlen.
  - assert (Hnone : nth_error l i = None)
      by (apply nth_error_None; lia).
    destruct k; simpl; [reflexivity | now rewrite Hnone].
  - simpl.
    destruct (nth_error l i) as [x|] eqn:Hx; [|reflexivity].
    destruct (body i x l) as [l'|e] eqn:Hb; simpl; [|reflexivity].
    apply IH.
    apply body_no_longer in Hb; lia.
Qed.

End ForListFacts.

Lemma nth_error_middle {A : Type} (pre suf : list A) (x : A) :
  nth_error (pre ++ x :: suf) (List.length pre) = Some x.
Proof.
  rewrite nth_error_app2 by lia.
  now rewrite Nat.sub_diag.
Qed.

Lemma setitem_middle {A : Type} (pre suf : list A) (x y : A) :
  setitem (pre ++ x :: suf) (List.length pre) y = Ok (pre ++ y :: suf).
Proof.
  induction pre as [|z pre IH]; simpl; [reflexivity|].
  now rewrite IH.
Qed.

Lemma setitem_length {A : Type} (l l' : list A) (i : nat) (x : A) :
  setitem l i x = Ok l' -> List.length l' = List.length l.
Proof.
  revert i l'; induction l as [|y l IH]; intros [|i] l' H; simpl in H;
    try discriminate.
  - inversion H; reflexivity.
  - destruct (setitem l i x) as [l''|] eqn:E; simpl in H; inversion H.
    simpl; f_equal; eapply IH; eauto.
Qed.

Lemma list_remove_In (x : loc) (l : list loc) :
  In x l -> exists l', list_remove x l = Ok l'.
Proof.
  induction l as [|y l IH]; simpl; [tauto|].
  intros Hin.
  destruct (Nat.eqb y x) eqn:E; [eauto|].
  apply Nat.eqb_neq in E.
  destruct Hin as [-> | Hin]; [congruence|].
  destruct (IH Hin) as [l' ->]; simpl; eauto.
Qed.

Lemma list_remove_length (x : loc) (l l' : list loc) :
  list_remove x l = Ok l' -> S (List.length l') = List.length l.
Proof.
  revert l'; induction l as [|y l IH]; intros l' H; simpl in H;
    [discriminate|].
  destruct (Nat.eqb y x).
  - inversion H; reflexivity.
  - destruct (list_remove x l) as [l''|] eqn:E; simpl in H; inversion H.
    simpl; f_equal; now apply IH.
Qed.

Lemma list_remove_filter (f : loc -> bool) (x : loc) (l l' : list loc) :
  f x = false -> list_remove x l = Ok l' -> filter f l' = filter f l.
Proof.
  intros Hf; revert l'; induction l as [|y l IH]; intros l' H; simpl in H;
    [discriminate|].
  destruct (Nat.eqb y x) eqn:E.
  - apply Nat.eqb_eq in E; subst y.
    inversion H; subst; simpl; now rewrite Hf.
  - destruct (list_remove x l) as [l''|] eqn:E'; simpl in H; inversion H.
    simpl; now rewrite (IH l'').
Qed.

(** ** edit_phone *)

Lemma edit_loop (h : heap) (old_phone new_phone : loc)
  (suf pre : list loc) (fuel : nat) :
  (List.length suf <= fuel)%nat ->
  for_list (edit_phone_body h old_phone new_phone) fuel
    (List.length pre) (pre ++ suf)
  = Ok (pre ++ map (edit_one h old_phone new_phone) suf).
Proof.
  revert pre fuel; induction suf as [|x suf IH]; intros pre fuel Hf.
  - simpl; rewrite app_nil_r.
    destruct fuel; simpl; [reflexivity|].
    replace (nth_error pre (List.length pre)) with (@None loc)
      by (symmetry; apply nth_error_None; lia).
    reflexivity.
  - destruct fuel as [|fuel]; simpl in Hf; [lia|].
    simpl; rewrite nth_error_middle.
    unfold edit_phone_body at 1, edit_one at 1, same_value.
    destruct (pyval_eqb _ _).
    + rewrite setitem_middle; simpl.
      specialize (IH (pre ++ [new_phone]) fuel).
      rewrite length_app, Nat.add_1_r, <- app_assoc in IH; simpl in IH.
      rewrite IH by lia.
      now rewrite <- app_assoc.
    + simpl.
      specialize (IH (pre ++ [x]) fuel).
      rewrite length_app, Nat.add_1_r, <- app_assoc in IH; simpl in IH.
      rewrite IH by lia.
      now rewrite <- app_assoc.
Qed.

Lemma edit_phone_body_no_longer (h : heap) (old_phone new_phone : loc)
  (i : nat) (x : loc) (l l' : list loc) :
  edit_phone_body h old_phone new_phone i x l = Ok l' ->
  (List.length l' <= List.length l)%nat.
Proof.
  unfold edit_phone_body; destruct (pyval_eqb _ _); intros H.
  - apply setitem_length in H; lia.
  - inversion H; lia.
Qed.

(** The fuel [edit_phone] gives its loop is enough. *)
Lemma edit_phone_fuel (h : heap) (l : list loc) (old_phone new_phone : loc)
  (k : nat) :
  for_list (edit_phone_body h old_phone new_phone) (List.length l + k) 0 l
  = for_list (edit_phone_body h old_phone new_phone) (List.length l) 0 l.
Proof.
  apply for_list_more_fuel; [apply edit_phone_body_no_longer | lia].
Qed.

(** The loop of [edit_phone] visits every index once and, there being no
    [break], replaces at each match. *)
Lemma edit_phone_map (h : heap) (self : record) (old_phone new_phone : loc) :
  edit_phone h self old_phone new_phone
  = Ok (set_phones self
          (map (edit_one h old_phone new_phone) (phones self))).
Proof.
  unfold edit_phone.
  pose proof (edit_loop h old_phone new_phone (phones self) []
                (List.length (phones self)) (le_n _)) as Hl.
  simpl in Hl; rewrite Hl; reflexivity.
Qed.

(** C4, amended: [edit_phone] puts [new_phone] in the place of every stored
    phone whose value equals that of [old_phone], the first and the later
    ones alike, keeps every other phone where it is, and never raises;
    when no stored phone has that value the record is unchanged. *)
Theorem edit_phone_replaces_every_match
  (h : heap) (self : record) (old_phone new_phone : loc) :
  edit_phone h self old_phone new_phone
  = Ok (set_phones self
          (map (edit_one h old_phone new_phone) (phones self)))
  /\ (forallb (fun p => negb (same_value h old_phone p)) (phones self)
      = true ->
      edit_phone h self old_phone new_phone = Ok self).
Proof.
  split; [apply edit_phone_map|].
  intros Hnone; rewrite edit_phone_map; f_equal.
  destruct self as [n ps b]; unfold set_phones; simpl in *; f_equal.
  induction ps as [|p ps IH]; simpl in *; [reflexivity|].
  apply andb_true_iff in Hnone as [Hp Hps].
  unfold edit_one at 1.
  apply negb_true_iff in Hp; rewrite Hp.
  f_equal; apply IH, Hps.
Qed.

Lemma edit_phone_replaces_every_match_witness :
  edit_phone sample_heap two_equal_phones 1%nat 3%nat
  = Ok (mk_record 0%nat [3%nat; 3%nat] None)
  /\ edit_phone sample_heap two_equal_phones 3%nat 4%nat
     = Ok two_equal_phones.
Proof.
  split.
  - exact (proj1 (edit_phone_replaces_every_match
                    sample_heap two_equal_phones 1%nat 3%nat)).
  - exact (proj2 (edit_phone_replaces_every_match
                    sample_heap two_equal_phones 3%nat 4%nat) eq_refl).
Defined.

(** C4 as stated fails: with two stored phones of the value of
    [old_phone], the later one is replaced too, so the outcome is not the
    list with the first match alone replaced. *)
Lemma edit_phone_not_first_only :
  replace_first (same_value sample_heap 1%nat) 3%nat
    (phones two_equal_phones) = [3%nat; 2%nat]
  /\ edit_phone sample_heap two_equal_phones 1%nat 3%nat
     <> Ok (set_phones two_equal_phones
              (replace_first (same_value sample_heap 1%nat) 3%nat
                 (phones two_equal_phones))).
Proof.
  split; [reflexivity|].
  vm_compute; intros H; discriminate H.
Qed.

(** ** remove_phone *)

Lemma remove_phone_body_no_longer (h : heap) (phone : loc)
  (i : nat) (x : loc) (l l' : list loc) :
  remove_phone_body h phone i x l = Ok l' ->
  (List.length l' <= List.length l)%nat.
Proof.
  unfold remove_phone_body; destruct (pyval_eqb _ _); intros H.
  - apply list_remove_length in H; lia.
  - inversion H; lia.
Qed.

(** The fuel [remove_phone] gives its loop is enough. *)
Lemma remove_phone_fuel (h : heap) (l : list loc) (phone : loc) (k : nat) :
  for_list (remove_phone_body h phone) (List.length l + k) 0 l
  = for_list (remove_phone_body h phone) (List.length l) 0 l.
Proof.
  apply for_list_more_fuel; [apply remove_phone_body_no_longer | lia].
Qed.

(** The loop never raises, and the phones of another value stay, in their
    order. *)
Lemma remove_loop_keeps_others (h : heap) (phone : loc)
  (fuel i : nat) (l : list loc) :
  exists l',
    for_list (remove_phone_body h phone) fuel i l = Ok l'
    /\ filter (fun p => negb (same_value h phone p)) l'
       = filter (fun p => negb (same_value h phone p)) l.
Proof.
  revert i l; induction fuel as [|fuel IH]; intros i l; simpl.
  - eauto.
  - destruct (nth_error l i) as [x|] eqn:Hx; [|eauto].
    unfold remove_phone_body at 1.
    destruct (pyval_eqb _ _) eqn:E.
    + destruct (list_remove_In x l (nth_error_In _ _ Hx)) as [l1 Hl1].
      rewrite Hl1; simpl.
      destruct (IH (S i) l1) as (l' & Hl' & Hf).
      exists l'; split; [exact Hl'|].
      rewrite Hf.
      apply list_remove_filter with (x := x); [|exact Hl1].
      unfold same_value; now rewrite E.
    + simpl; apply IH.
Qed.

Lemma remove_phone_keeps_others (h : heap) (self : record) (phone : loc) :
  exists l',
    remove_phone h self phone = Ok (set_phones self l')
    /\ filter (fun p => negb (same_value h phone p)) l'
       = filter (fun p => negb (same_value h phone p)) (phones self).
Proof.
  unfold remove_phone.
  destruct (remove_loop_keeps_others h phone
              (List.length (phones self)) 0 (phones self))
    as (l' & -> & Hf).
  exists l'; split; [reflexivity | exact Hf].
Qed.

Lemma list_remove_after (f : loc -> bool) (x : loc) (pre suf : list loc) :
  f x = true -> forallb (fun p => negb (f p)) pre = true ->
  list_remove x (pre ++ x :: suf) = Ok (pre ++ suf).
Proof.
  intros Hx; induction pre as [|y pre IH]; simpl; intros Hpre.
  - now rewrite Nat.eqb_refl.
  - apply andb_true_iff in Hpre as [Hy Hpre].
    destruct (Nat.eqb_spec y x) as [-> | _].
    + rewrite Hx in Hy; discriminate.
    + now rewrite IH.
Qed.

Lemma for_list_past_end {A : Type}
  (body : nat -> A -> list A -> result (list A))
  (fuel i : nat) (l : list A) :
  (List.length l <= i)%nat -> for_list body fuel i l = Ok l.
Proof.
  intros Hi; destruct fuel; simpl; [reflexivity|].
  replace (nth_error l i) with (@None A)
    by (symmetry; now apply nth_error_None).
  reflexivity.
Qed.

(** Where no two neighbours have the value of [phone], the loop removes
    every phone of that value. *)
Lemma remove_loop_no_adjacent (h : heap) (phone : loc) (fuel : nat) :
  forall pre suf : list loc,
    (List.length suf <= fuel)%nat ->
    forallb (fun p => negb (same_value h phone p)) pre = true ->
    no_adjacent (same_value h phone) suf = true ->
    for_list (remove_phone_body h phone) fuel (List.length pre) (pre ++ suf)
    = Ok (pre ++ filter (fun p => negb (same_value h phone p)) suf).
Proof.
  induction fuel as [|fuel IH]; intros pre suf Hf Hpre Hsuf.
  - destruct suf; simpl in *; [now rewrite app_nil_r | lia].
  - destruct suf as [|x suf].
    + simpl filter; rewrite app_nil_r; apply for_list_past_end; lia.
    + cbn [for_list]; rewrite nth_error_middle.
      unfold remove_phone_body at 1; fold (same_value h phone x).
      cbn [filter].
      destruct (same_value h phone x) eqn:Hx; cbn [negb bind].
      * rewrite (list_remove_after (same_value h phone) x pre suf Hx Hpre).
        cbn [bind].
        destruct suf as [|y suf].
        -- simpl; rewrite app_nil_r; apply for_list_past_end; lia.
        -- simpl in Hsuf, Hf.
           rewrite Hx in Hsuf; simpl in Hsuf.
           apply andb_true_iff in Hsuf as [Hy Hsuf].
           cbn [filter]; rewrite Hy.
           specialize (IH (pre ++ [y]) suf).
           rewrite length_app, Nat.add_1_r, <- app_assoc in IH.
           simpl in IH; rewrite IH; [now rewrite <- app_assoc | lia | |].
           ++ rewrite forallb_app, Hpre; simpl; now rewrite Hy.
           ++ destruct suf as [|z suf]; [reflexivity|].
              now apply andb_true_iff in Hsuf as [_ Hsuf].
      * specialize (IH (pre ++ [x]) suf).
        rewrite length_app, Nat.add_1_r, <- app_assoc in IH.
        simpl in IH; rewrite IH; [now rewrite <- app_assoc | | |].
        -- simpl in Hf; lia.
        -- rewrite forallb_app, Hpre; simpl; now rewrite Hx.
        -- destruct suf as [|y suf]; [reflexivity|].
           simpl in Hsuf; now apply andb_true_iff in Hsuf as [_ Hsuf].
Qed.

Lemma remove_phone_no_adjacent (h : heap) (self : record) (phone : loc) :
  no_adjacent (same_value h phone) (phones self) = true ->
  remove_phone h self phone
  = Ok (set_phones self
          (filter (fun p => negb (same_value h phone p)) (phones self))).
Proof.
  intros H; unfold remove_phone.
  pose proof (remove_loop_no_adjacent h phone (List.length (phones self))
                [] (phones self) (le_n _) eq_refl H) as Hl.
  simpl in Hl; rewrite Hl; reflexivity.
Qed.

(** C3, at the failing input: a record with two phone objects of value
    ['1234567890'], and [remove_phone(Phone('1234567890'))].  The loop
    removes the first and steps over the second, which stays. *)
Theorem remove_phone_skips_next_duplicate :
  remove_phone sample_heap two_equal_phones 1%nat
  = Ok (mk_record 0%nat [2%nat] None)
  /\ holds_phone sample_heap (value (deref sample_heap 1%nat))
       (mk_record 0%nat [2%nat] None) = true.
Proof. split; reflexivity. Qed.

(** ** search *)

Lemma find_last_app {A : Type} (f : A -> bool) (l1 l2 : list A) :
  find_last f (l1 ++ l2) =
  match find_last f l2 with
  | Some y => Some y
  | None => find_last f l1
  end.
Proof.
  induction l1 as [|x l1 IH]; simpl.
  - now destruct (find_last f l2).
  - rewrite IH; destruct (find_last f l2); reflexivity.
Qed.

Lemma find_last_None {A : Type} (f : A -> bool) (l : list A) :
  find_last f l = None <-> forall x, In x l -> f x = false.
Proof.
  induction l as [|x l IH]; simpl.
  - split; [intros _ y [] | reflexivity].
  - destruct (find_last f l) as [y|] eqn:E.
    + split; [discriminate|].
      intros H.
      assert (Hl : forall z, In z l -> f z = false) by (intros; apply H; auto).
      apply IH in Hl; discriminate.
    + destruct (f x) eqn:Hx.
      * split; [discriminate|].
        intros H; rewrite (H x) in Hx; [discriminate | now left].
      * split; [|reflexivity].
        intros _ z [<- | Hz]; [assumption|].
        now apply (proj1 IH).
Qed.

(** [find_last] gives a matching element with no matching element after
    it. *)
Lemma find_last_Some {A : Type} (f : A -> bool) (l : list A) (x : A) :
  find_last f l = Some x <->
  exists l1 l2, l = l1 ++ x :: l2 /\ f x = true
                /\ forall y, In y l2 -> f y = false.
Proof.
  split.
  - revert x; induction l as [|z l IH]; intros x H; simpl in H;
      [discriminate|].
    destruct (find_last f l) as [y|] eqn:E.
    + inversion H; subst y.
      destruct (IH x eq_refl) as (l1 & l2 & -> & Hx & Hl2).
      exists (z :: l1), l2; auto.
    + destruct (f z) eqn:Hz; [|discriminate].
      inversion H; subst z.
      exists [], l; repeat split; auto.
      now apply find_last_None.
  - intros (l1 & l2 & -> & Hx & Hl2).
    rewrite find_last_app; simpl.
    apply find_last_None in Hl2; rewrite Hl2, Hx; reflexivity.
Qed.

(** With keys that are all different, the last entry under a key is the
    entry under that key. *)
Lemma find_last_key (d : list (pyval * record)) (k : pyval) (r : record) :
  NoDup (map fst d) -> In (k, r) d ->
  find_last (fun kr => pyval_eqb k (fst kr)) d = Some (k, r).
Proof.
  intros Hnd Hin.
  apply in_split in Hin as (l1 & l2 & ->).
  apply find_last_Some.
  exists l1, l2; repeat split; [apply pyval_eqb_refl|].
  intros [k' r'] Hy; simpl.
  apply pyval_eqb_neq; intros <-.
  rewrite map_app in Hnd; simpl in Hnd.
  apply NoDup_remove_2 in Hnd; apply Hnd.
  apply in_or_app; right.
  change k with (fst (k, r')); now apply in_map.
Qed.

Lemma search_name_loop (h : heap) (v : pyval) (d : list (pyval * record))
  (results : pyres) :
  fold_left
    (fun results '(name, r) =>
       if pyval_eqb v name
       then RList (map (fun x => value (deref h x)) (phones r))
       else results)
    d results
  = match find_last (fun kr => pyval_eqb v (fst kr)) d with
    | Some (_, r) => RList (phone_values h r)
    | None => results
    end.
Proof.
  revert results; induction d as [|[k r] d IH]; intros results; simpl.
  - reflexivity.
  - rewrite IH.
    destruct (find_last _ d) as [[k' r']|]; [reflexivity|].
    now destruct (pyval_eqb v k).
Qed.

Lemma search_phone_inner (h : heap) (v name : pyval) (ps : list loc)
  (results : pyres) :
  fold_left
    (fun results phone =>
       if pyval_eqb v (value (deref h phone)) then RVal name else results)
    ps results
  = if existsb (fun p => pyval_eqb v (value (deref h p))) ps
    then RVal name else results.
Proof.
  revert results; induction ps as [|p ps IH]; intros results; simpl.
  - reflexivity.
  - rewrite IH.
    destruct (pyval_eqb v (value (deref h p))); simpl; [|reflexivity].
    now destruct (existsb _ ps).
Qed.

Lemma search_phone_loop (h : heap) (v : pyval) (d : list (pyval * record))
  (results : pyres) :
  fold_left
    (fun results '(name, r) =>
       fold_left
         (fun results phone =>
            if pyval_eqb v (value (deref h phone))
            then RVal name else results)
         (phones r) results)
    d results
  = match find_last (fun kr => holds_phone h v (snd kr)) d with
    | Some (name, _) => RVal name
    | None => results
    end.
Proof.
  revert results; induction d as [|[k r] d IH]; intros results; simpl.
  - reflexivity.
  - rewrite IH, search_phone_inner.
    destruct (find_last _ d) as [[k' r']|]; [reflexivity|].
    unfold holds_phone; simpl.
    now destruct (existsb _ (phones r)).
Qed.

(** C7: [search] with a Name returns the list of the phone values, in
    order, of the entry whose key equals the value of the query (the last
    such entry of the scan, which with the distinct keys of a dict is the
    only one), and [None] when no key equals it; with a Phone it returns
    the key of the last entry, in the order of the dict, that stores a
    phone of equal value, and [None] when no entry stores one; with any
    other object it returns [None]. *)
Theorem search_returns_phones_or_last_owner
  (h : heap) (self : AddressBook) :
  (forall q,
     search h self (Ref q) =
     let v := value (deref h q) in
     match cls (deref h q) with
     | Name =>
         match find_last (fun kr => pyval_eqb v (fst kr)) (data self) with
         | Some (_, r) => RList (phone_values h r)
         | None => RVal PyNone
         end
     | Phone =>
         match find_last (fun kr => holds_phone h v (snd kr)) (data self)
         with
         | Some (name, _) => RVal name
         | None => RVal PyNone
         end
     | Field | Birthday => RVal PyNone
     end)
  /\ (forall v, search h self (Val v) = RVal PyNone)
  /\ (forall q r,
        cls (deref h q) = Name ->
        NoDup (map fst (data self)) ->
        In (value (deref h q), r) (data self) ->
        search h self (Ref q) = RList (phone_values h r))
  /\ (forall q,
        cls (deref h q) = Name ->
        (forall k r, In (k, r) (data self) -> k <> value (deref h q)) ->
        search h self (Ref q) = RVal PyNone)
  /\ (forall q,
        cls (deref h q) = Phone ->
        (forall k r, In (k, r) (data self) ->
                     holds_phone h (value (deref h q)) r = false) ->
        search h self (Ref q) = RVal PyNone).
Proof.
  assert (Hmain : forall q,
     search h self (Ref q) =
     let v := value (deref h q) in
     match cls (deref h q) with
     | Name =>
         match find_last (fun kr => pyval_eqb v (fst kr)) (data self) with
         | Some (_, r) => RList (phone_values h r)
         | None => RVal PyNone
         end
     | Phone =>
         match find_last (fun kr => holds_phone h v (snd kr)) (data self)
         with
         | Some (name, _) => RVal name
         | None => RVal PyNone
         end
     | Field | Birthday => RVal PyNone
     end).
  { intros q; unfold search; simpl.
    destruct (cls (deref h q)); try reflexivity.
    - apply search_name_loop.
    - apply search_phone_loop. }
  split; [exact Hmain|].
  split; [reflexivity|].
  split; [|split].
  - intros q r Hc Hnd Hin.
    rewrite Hmain; simpl; rewrite Hc.
    now rewrite (find_last_key _ _ _ Hnd Hin).
  - intros q Hc Hnone.
    rewrite Hmain; simpl; rewrite Hc.
    replace (find_last _ (data self)) with (@None (pyval * record));
      [reflexivity|].
    symmetry; apply find_last_None.
    intros [k r] Hin; simpl.
    apply pyval_eqb_neq; intros <-.
    now apply (Hnone _ _ Hin).
  - intros q Hc Hnone.
    rewrite Hmain; simpl; rewrite Hc.
    replace (find_last _ (data self)) with (@None (pyval * record));
      [reflexivity|].
    symmetry; apply find_last_None.
    intros [k r] Hin; simpl.
    now apply (Hnone _ _ Hin).
Qed.

Lemma search_returns_phones_or_last_owner_witness :
  search sample_heap sample_book (Ref 0%nat)
  = RList [PyStr "1234567890"; PyStr "1234567890"]
  /\ search sample_heap sample_book (Ref 4%nat) = RVal PyNone.
Proof.
  pose proof (search_returns_phones_or_last_owner sample_heap sample_book)
    as (_ & _ & Hname & _ & Hphone).
  split.
  - apply (Hname 0%nat two_equal_phones); [reflexivity | | now left].
    repeat constructor; simpl; intuition discriminate.
  - apply (Hphone 4%nat); [reflexivity|].
    intros k r [H | [H | []]]; inversion H; reflexivity.
Defined.

(** ** Pages *)

Lemma dict_setitem_keys (d : list (pyval * record)) (k : pyval)
  (r : record) :
  map fst (dict_setitem d k r) = map fst d
  \/ (~ In k (map fst d)
      /\ map fst (dict_setitem d k r) = map fst d ++ [k]).
Proof.
  induction d as [|[k' r'] d IH]; simpl.
  - right; split; [tauto | reflexivity].
  - destruct (pyval_eqb k' k) eqn:E; simpl; [now left|].
    apply pyval_eqb_neq in E.
    destruct IH as [-> | [Hnot ->]]; [now left | right].
    split; [|reflexivity].
    intros [H | H]; [congruence | contradiction].
Qed.

(** The keys of a book stay distinct under [add_record]. *)
Lemma add_record_keys_distinct (h : heap) (self : AddressBook) (r : record) :
  NoDup (map fst (data self)) ->
  NoDup (map fst (data (add_record h self r))).
Proof.
  intros Hnd; unfold add_record; simpl.
  destruct (dict_setitem_keys (data self) (value (deref h (name r))) r)
    as [-> | [Hnot ->]]; [assumption|].
  apply NoDup_app; [assumption | repeat constructor; tauto |].
  intros a Ha [<- | []]; contradiction.
Qed.

Lemma dict_getitem_nth (d : list (pyval * record)) (pos : nat)
  (k : pyval) (r : record) :
  NoDup (map fst d) -> nth_error d pos = Some (k, r) ->
  dict_getitem d k = Ok r.
Proof.
  revert pos; induction d as [|[k' r'] d IH]; intros pos Hnd Hn.
  - destruct pos; discriminate.
  - simpl in *; inversion Hnd as [|? ? Hnot Hnd']; subst.
    destruct pos as [|pos]; simpl in Hn.
    + inversion Hn; subst; now rewrite pyval_eqb_refl.
    + destruct (pyval_eqb k' k) eqn:E.
      * apply pyval_eqb_eq in E; subst k'.
        exfalso; apply Hnot.
        apply nth_error_In in Hn.
        change k with (fst (k, r)); now apply in_map.
      * eapply IH; eauto.
Qed.

Lemma skipn_nth_error {A : Type} (l : list A) (pos : nat) (x : A) :
  nth_error l pos = Some x -> skipn pos l = x :: skipn (S pos) l.
Proof.
  revert l; induction pos as [|pos IH]; intros [|y l] H; simpl in H;
    try discriminate.
  - inversion H; reflexivity.
  - simpl; now apply IH.
Qed.

(** The gathering loop on an iterator in step with the dict: it takes the
    next [k] entries, or all that are left and then meets the end. *)
Lemma next_items_in_step (d : list (pyval * record)) :
  NoDup (map fst d) ->
  forall (k pos : nat) (items : list (pyval * record)),
    (pos <= List.length d)%nat ->
    next_items d k (Some (DictIter (List.length d) pos)) items
    = if (k <=? List.length (skipn pos d))%nat
      then (None, items ++ firstn k (skipn pos d),
            Some (DictIter (List.length d) (pos + k)))
      else (Some StopIteration, items ++ skipn pos d, Some DictIterSpent).
Proof.
  intros Hnd; induction k as [|k IH]; intros pos items Hpos.
  - simpl; now rewrite app_nil_r, Nat.add_0_r.
  - simpl; rewrite Nat.eqb_refl; simpl.
    destruct (nth_error d pos) as [[key r]|] eqn:Hn.
    + rewrite (dict_getitem_nth d pos key r Hnd Hn).
      assert (Hlt : (pos < List.length d)%nat)
        by (apply nth_error_Some; congruence).
      rewrite IH by lia.
      rewrite (skipn_nth_error _ _ _ Hn).
      remember (skipn (S pos) d) as rest eqn:Hrest.
      replace (pos + S k)%nat with (S pos + k)%nat by lia.
      simpl.
      destruct (k <=? List.length rest)%nat;
        now rewrite <- app_assoc.
    + apply nth_error_None in Hn.
      rewrite skipn_all2 by lia; simpl.
      now rewrite app_nil_r.
Qed.

(** A page request on a book whose iterator is in step, for a page size
    of at least one: the page of the next [n] remaining records (fewer at
    the end), or [StopIteration] when none remains; the iterator moves
    past them. *)
Lemma next_page (h : heap) (self : AddressBook) (n : Z) :
  0 < n -> NoDup (map fst (data self)) -> in_step self ->
  exists self',
    AddressBook_next h self n
    = (page_or_stop h (firstn (Z.to_nat n) (remaining self)), self')
    /\ data self' = data self
    /\ in_step self'
    /\ remaining self' = skipn (Z.to_nat n) (remaining self).
Proof.
  intros Hn Hnd Hstep.
  assert (Hk : (0 < Z.to_nat n)%nat) by lia.
  unfold AddressBook_next, in_step, remaining in *.
  remember (Z.to_nat n) as k eqn:Ek; clear Ek Hn n.
  destruct self as [d [[used pos| |]|]]; cbn [data keys_iter] in *;
    try contradiction.
  - destruct Hstep as [-> Hpos].
    rewrite Nat.eqb_refl.
    rewrite (next_items_in_step d Hnd k pos [] Hpos).
    cbn [app].
    assert (Hskip : skipn k (skipn pos d) = skipn (pos + k) d)
      by (rewrite skipn_skipn; f_equal; lia).
    assert (Hlen : List.length (skipn pos d) = (List.length d - pos)%nat)
      by apply length_skipn.
    remember (skipn pos d) as rest eqn:Hrest.
    destruct (k <=? List.length rest)%nat eqn:Hle.
    + apply Nat.leb_le in Hle.
      exists (mk_book d (Some (DictIter (List.length d) (pos + k)))).
      cbn [data keys_iter]; rewrite Nat.eqb_refl.
      repeat split; try lia; [|now rewrite Hskip].
      destruct (firstn k rest) as [|x items] eqn:Hf; [|reflexivity].
      apply (f_equal (@List.length _)) in Hf.
      rewrite length_firstn in Hf; simpl in Hf; lia.
    + apply Nat.leb_gt in Hle.
      exists (mk_book d (Some DictIterSpent)).
      cbn [data keys_iter].
      rewrite firstn_all2, skipn_all2 by lia.
      repeat split.
      now destruct rest.
  - exists (mk_book d (Some DictIterSpent)).
    destruct k; [lia|].
    repeat split.
Qed.

Lemma next_exhausted (h : heap) (self : AddressBook) (n : Z) :
  0 < n -> in_step self -> remaining self = [] ->
  exists self',
    AddressBook_next h self n = (Raise StopIteration, self')
    /\ data self' = data self /\ in_step self' /\ remaining self' = [].
Proof.
  intros Hn Hstep Hrem.
  assert (Hk : (0 < Z.to_nat n)%nat) by lia.
  unfold AddressBook_next, in_step, remaining in *.
  destruct (Z.to_nat n) as [|k]; [lia|].
  destruct self as [d [[used pos| |]|]]; cbn [data keys_iter] in *;
    try contradiction.
  - destruct Hstep as [-> Hpos].
    rewrite Nat.eqb_refl in Hrem.
    assert (Hlen : List.length (skipn pos d) = 0%nat) by now rewrite Hrem.
    rewrite length_skipn in Hlen.
    simpl; rewrite Nat.eqb_refl; simpl.
    replace (nth_error d pos) with (@None (pyval * record))
      by (symmetry; apply nth_error_None; lia).
    eexists; split; [reflexivity|]; simpl; auto.
  - eexists; split; [reflexivity|]; simpl; auto.
Qed.





Lemma page_or_stop_some (h : heap) (items : list (pyval * record)) :
  (0 < List.length items)%nat -> page_or_stop h items = render_page h items.
Proof.
  destruct items; simpl; [lia | reflexivity].
Qed.

(** On a book of 25 records three requests of size 10 gather the first
    10, the next 10 and the last 5 records, and the fourth meets the
    end. *)
Lemma three_pages_of_25 (h : heap) (self : AddressBook) :
  List.length (data self) = 25%nat ->
  NoDup (map fst (data self)) ->
  exists b1 b2 b3 b4,
    AddressBook_next h (AddressBook_iter self) N
    = (render_page h (firstn 10 (data self)), b1)
    /\ AddressBook_next h b1 N
       = (render_page h (firstn 10 (skipn 10 (data self))), b2)
    /\ AddressBook_next h b2 N
       = (render_page h (skipn 20 (data self)), b3)
    /\ AddressBook_next h b3 N = (Raise StopIteration, b4).
Proof.
  intros Hlen Hnd.
  set (d := data self) in *.
  set (b0 := AddressBook_iter self).
  assert (H0 : data b0 = d /\ in_step b0 /\ remaining b0 = d).
  { unfold b0, AddressBook_iter, in_step, remaining, dict_iter_new; simpl.
    fold d; rewrite Nat.eqb_refl; repeat split; lia. }
  destruct H0 as (Hd0 & Hs0 & Hr0).
  assert (HN : 0 < N) by reflexivity.
  destruct (next_page h b0 N HN) as (b1 & E1 & Hd1 & Hs1 & Hr1);
    [now rewrite Hd0 | assumption |].
  destruct (next_page h b1 N HN) as (b2 & E2 & Hd2 & Hs2 & Hr2);
    [now rewrite Hd1, Hd0 | assumption |].
  destruct (next_page h b2 N HN) as (b3 & E3 & Hd3 & Hs3 & Hr3);
    [now rewrite Hd2, Hd1, Hd0 | assumption |].
  destruct (next_page h b3 N HN) as (b4 & E4 & Hd4 & Hs4 & Hr4);
    [now rewrite Hd3, Hd2, Hd1, Hd0 | assumption |].
  change (Z.to_nat N) with 10%nat in *.
  rewrite Hr0 in *; rewrite Hr1 in *; rewrite Hr2 in *; rewrite Hr3 in *.
  assert (L1 : List.length (skipn 10 d) = 15%nat)
    by (rewrite length_skipn; lia).
  assert (L2 : List.length (skipn 10 (skipn 10 d)) = 5%nat)
    by (rewrite length_skipn; lia).
  assert (L3 : skipn 10 (skipn 10 (skipn 10 d)) = [])
    by (apply skipn_all2; lia).
  rewrite L3 in E4; simpl in E4.
  rewrite (firstn_all2 (n := 10) (skipn 10 (skipn 10 d))) in E3 by lia.
  rewrite page_or_stop_some in E1 by (rewrite length_firstn; lia).
  rewrite page_or_stop_some in E2 by (rewrite length_firstn; lia).
  rewrite page_or_stop_some in E3 by lia.
  rewrite skipn_skipn in E3; simpl in E3.
  exists b1, b2, b3, b4; auto.
Qed.

Lemma book25_keys_distinct : NoDup (map fst (data book25)).
Proof.
  vm_compute.
  repeat (constructor; [simpl; intuition discriminate|]).
  constructor.
Qed.

(** ** days_to_birthday *)

Lemma check_date_fields_spec (y m d : Z) :
  check_date_fields y m d = true <->
  MINYEAR <= y <= MAXYEAR /\ 1 <= m <= 12 /\ 1 <= d <= days_in_month y m.
Proof.
  unfold check_date_fields.
  rewrite !andb_true_iff, !Z.leb_le; tauto.
Qed.

Lemma month_cases (m : Z) :
  1 <= m <= 12 ->
  m = 1 \/ m = 2 \/ m = 3 \/ m = 4 \/ m = 5 \/ m = 6 \/ m = 7 \/ m = 8
  \/ m = 9 \/ m = 10 \/ m = 11 \/ m = 12.
Proof. lia. Qed.

Ltac each_month H :=
  destruct (month_cases _ H) as
    [-> | [-> | [-> | [-> | [-> | [-> | [-> | [-> | [-> | [-> | [-> | ->
    ]]]]]]]]]]].

(** A date other than February 29 exists in every year. *)
Lemma check_date_fields_other_year (y y' m d : Z) :
  check_date_fields y m d = true ->
  ~ (m = 2 /\ d = 29) ->
  MINYEAR <= y' <= MAXYEAR ->
  check_date_fields y' m d = true.
Proof.
  rewrite !check_date_fields_spec.
  intros (Hy & Hm & Hd) Hfeb Hy'.
  repeat split; try tauto.
  each_month Hm; unfold days_in_month in *; simpl in *;
    try tauto.
  destruct (is_leap y), (is_leap y'); simpl in *; lia.
Qed.

Lemma datetime_gt_midnight (t : datetime) :
  0 <= hour t -> 0 <= minute t -> 0 <= second t -> 0 <= microsecond t ->
  datetime_gt t (mk_datetime (year t) (month t) (day t) 0 0 0 0)
  = negb ((hour t =? 0) && (minute t =? 0) && (second t =? 0)
          && (microsecond t =? 0)).
Proof.
  intros Hh Hmi Hs Hu.
  unfold datetime_gt, fields; simpl.
  rewrite !Z.compare_refl.
  destruct (Z.compare_spec (hour t) 0), (Z.compare_spec (minute t) 0),
    (Z.compare_spec (second t) 0), (Z.compare_spec (microsecond t) 0);
    simpl; lia.
Qed.

(** What the code does by design on the day itself: at midnight exactly
    the result is 0. *)
Lemma days_to_birthday_at_midnight (h : heap) (now : datetime)
  (self : record) (b : loc) (bv : datetime) :
  birthday self = Some b ->
  value (deref h b) = PyDatetime bv ->
  valid_datetime now -> is_midnight now ->
  month bv = month now -> day bv = day now ->
  days_to_birthday h now self = Ok (PyInt 0).
Proof.
  intros Hb Hv (Hdate & _) (Hh & Hmi & Hs & Hu) Hm Hd.
  unfold days_to_birthday; rewrite Hb, Hv; simpl.
  rewrite Hm, Hd; unfold datetime_ymd; rewrite Hdate; simpl.
  unfold datetime_gt, fields; simpl.
  rewrite Hh, Hmi, Hs, Hu, !Z.compare_refl; simpl.
  unfold datetime_sub, toordinal; simpl.
  rewrite Hh, Hmi, Hs, Hu.
  replace (_ + _ + _) with 0 by lia.
  reflexivity.
Qed.

Lemma year_length (y : Z) :
  days_before_year (y + 1) - days_before_year y
  = 365 + (if is_leap y then 1 else 0).
Proof.
  unfold days_before_year, is_leap.
  replace (y + 1 - 1) with y by lia.
  destruct (Z.eqb_spec (y mod 4) 0), (Z.eqb_spec (y mod 100) 0),
    (Z.eqb_spec (y mod 400) 0); simpl;
    Z.div_mod_to_equations; lia.
Qed.

(** From a date to the same date a year later: 365 or 366 days. *)
Lemma same_date_next_year (y m d : Z) :
  365 <= ymd2ord (y + 1) m d - ymd2ord y m d <= 366.
Proof.
  unfold ymd2ord, days_before_month.
  pose proof (year_length y) as Hy.
  generalize dependent (nth (Z.to_nat m) DAYS_BEFORE_MONTH 0); intros t.
  assert (Hleap : is_leap y = true -> is_leap (y + 1) = false).
  { unfold is_leap; intros H.
    apply andb_true_iff in H as [H _]; apply Z.eqb_eq in H.
    replace ((y + 1) mod 4 =? 0) with false; [reflexivity|].
    symmetry; apply Z.eqb_neq.
    Z.div_mod_to_equations; lia. }
  destruct (2 <? m), (is_leap y), (is_leap (y + 1)); simpl in *;
    try (specialize (Hleap eq_refl); discriminate); lia.
Qed.

(** On the day itself at any moment after midnight the rollover test
    already holds, and the result is the count to next year's date. *)
Lemma days_to_birthday_after_midnight (h : heap) (now : datetime)
  (self : record) (b : loc) (bv : datetime) :
  birthday self = Some b ->
  value (deref h b) = PyDatetime bv ->
  valid_datetime now -> ~ is_midnight now ->
  month bv = month now -> day bv = day now ->
  ~ (month now = 2 /\ day now = 29) ->
  year now < MAXYEAR ->
  exists k, days_to_birthday h now self = Ok (PyInt k) /\ 364 <= k <= 365.
Proof.
  intros Hb Hv (Hdate & Hh & Hmi & Hs & Hu) Hnot Hm Hd Hfeb Hyear.
  unfold days_to_birthday; rewrite Hb, Hv; simpl.
  rewrite Hm, Hd; unfold datetime_ymd at 1; rewrite Hdate; simpl.
  rewrite datetime_gt_midnight by lia.
  assert (Hgt : (hour now =? 0) && (minute now =? 0) && (second now =? 0)
                && (microsecond now =? 0) = false).
  { apply not_true_iff_false; intros H.
    rewrite !andb_true_iff, !Z.eqb_eq in H.
    apply Hnot; unfold is_midnight; tauto. }
  rewrite Hgt; simpl.
  assert (Hnext : check_date_fields (year now + 1) (month now) (day now)
                  = true).
  { apply (check_date_fields_other_year (year now)); auto.
    apply check_date_fields_spec in Hdate; unfold MINYEAR in *; lia. }
  unfold datetime_ymd; rewrite Hnext; simpl.
  eexists; split; [reflexivity|].
  unfold days, datetime_sub, toordinal; simpl.
  pose proof (same_date_next_year (year now) (month now) (day now)) as Hord.
  set (D := ymd2ord (year now + 1) (month now) (day now)
            - ymd2ord (year now) (month now) (day now)) in *.
  assert (Htod : 0 < (second now + minute now * 60 + hour now * 3600)
                     * 1000000 + microsecond now < US_PER_DAY).
  { unfold US_PER_DAY; split; [|lia].
    assert (hour now <> 0 \/ minute now <> 0 \/ second now <> 0
            \/ microsecond now <> 0).
    { unfold is_midnight in Hnot; lia. }
    lia. }
  unfold US_PER_DAY in *.
  split.
  - apply Z.div_le_lower_bound; lia.
  - apply Z.lt_succ_r, Z.div_lt_upper_bound; lia.
Qed.

(** C1, at the failing input: the birthday is 24 August 1991 and the
    clock shows 24 August 2023, 14:30.  Month and day are today's, and
    the result is 365, the count to 24 August 2024, not 0. *)
Theorem days_to_birthday_on_the_day_is_not_0 :
  let self := Record_init 7%nat (Some 3%nat) (Some 5%nat) in
  value (deref sample_heap 5%nat)
  = PyDatetime (mk_datetime 1991 8 24 0 0 0 0)
  /\ month clock = 8 /\ day clock = 24
  /\ days_to_birthday sample_heap clock self = Ok (PyInt 365).
Proof. repeat split; reflexivity. Qed.

(** ** Which operations raise *)

(** The missed case of [days_to_birthday]: a birthday on 29 February,
    asked for in 2023, makes [datetime(2023, 2, 29)] raise. *)
Lemma days_to_birthday_29_february :
  value (deref sample_heap 6%nat)
  = PyDatetime (mk_datetime 2000 2 29 0 0 0 0)
  /\ days_to_birthday sample_heap clock (Record_init 0%nat None (Some 6%nat))
     = Raise ValueError.
Proof. split; reflexivity. Qed.

Lemma days_to_birthday_completes (h : heap) (now : datetime)
  (self : record) (b : loc) (bv : datetime) :
  birthday self = Some b ->
  value (deref h b) = PyDatetime bv ->
  valid_datetime now -> valid_datetime bv ->
  ~ (month bv = 2 /\ day bv = 29) ->
  year now < MAXYEAR ->
  completes (days_to_birthday h now self).
Proof.
  intros Hb Hv (Hnow & _) (Hbv & _) Hfeb Hyear.
  apply check_date_fields_spec in Hnow.
  assert (H1 : check_date_fields (year now) (month bv) (day bv) = true).
  { apply (check_date_fields_other_year (year bv)); tauto. }
  assert (H2 : check_date_fields (year now + 1) (month bv) (day bv) = true).
  { apply (check_date_fields_other_year (year bv)); auto.
    unfold MINYEAR in *; lia. }
  unfold days_to_birthday, datetime_ymd; rewrite Hb, Hv; simpl.
  rewrite H1, H2; simpl.
  destruct (datetime_gt _ _); eexists; reflexivity.
Qed.

(** C8 as stated fails: [Phone(123)] raises [TypeError]. *)
Lemma Phone_of_int_raises :
  new Phone clock (PyInt 123) = Raise TypeError
  /\ ~ completes (new Phone clock (PyInt 123)).
Proof.
  split; [reflexivity|].
  intros [o H]; discriminate H.
Qed.

(** C8, amended: the operations complete without raising on arguments of
    their declared types.  Constructing and assigning a base field, a
    Name or a Birthday completes for every value, and a Phone for every
    string; [add_phone] completes for every argument, [remove_phone] and
    [edit_phone] for every field argument; [days_to_birthday] completes
    on a record without birthday and on one whose birthday holds a date
    other than 29 February (the clock's year being below 9999).
    Constructing or assigning a Phone from a value that is not a string
    raises [TypeError].  Nothing is said of a birthday on 29 February. *)
Theorem operations_complete_on_typed_arguments :
  (forall c now v, c <> Phone -> completes (new c now v))
  /\ (forall now self v,
        cls self <> Phone -> completes (value_setter now self v))
  /\ (forall now s, completes (new Phone now (PyStr s)))
  /\ (forall now self s, completes (value_setter now self (PyStr s)))
  /\ (forall now v,
        (forall s, v <> PyStr s) -> new Phone now v = Raise TypeError)
  /\ (forall now self v,
        cls self = Phone -> (forall s, v <> PyStr s) ->
        value_setter now self v = Raise TypeError)
  /\ (forall h self phone, completes (add_phone h self phone))
  /\ (forall h self phone, completes (remove_phone h self phone))
  /\ (forall h self old_phone new_phone,
        completes (edit_phone h self old_phone new_phone))
  /\ (forall h now self,
        birthday self = None -> days_to_birthday h now self = Ok PyNone)
  /\ (forall h now self b bv,
        birthday self = Some b ->
        value (deref h b) = PyDatetime bv ->
        valid_datetime now -> valid_datetime bv ->
        ~ (month bv = 2 /\ day bv = 29) ->
        year now < MAXYEAR ->
        completes (days_to_birthday h now self)).
Proof.
  assert (Hset : forall now self v,
             cls self <> Phone \/ (exists s, v = PyStr s) ->
             completes (value_setter now self v)).
  { intros now self v H; unfold value_setter.
    destruct (valid_value_verdict (cls self) now v H) as [ok ->].
    simpl; eexists; reflexivity. }
  repeat split.
  - intros c now v Hc; apply Hset; now left.
  - intros now self v Hc; apply Hset; now left.
  - intros now s; apply Hset; right; eauto.
  - intros now self s; apply Hset; right; eauto.
  - intros now v Hv; destruct v; try reflexivity.
    now destruct (Hv s).
  - intros now self v Hc Hv; unfold value_setter; rewrite Hc.
    destruct v; try reflexivity.
    now destruct (Hv s).
  - intros h self [v | p]; unfold add_phone; simpl;
      [eexists; reflexivity|].
    destruct (truthy _); eexists; reflexivity.
  - intros h self phone.
    destruct (remove_phone_keeps_others h self phone) as (l' & -> & _).
    eexists; reflexivity.
  - intros h self old_phone new_phone.
    rewrite edit_phone_map; eexists; reflexivity.
  - intros h now self Hb; unfold days_to_birthday; now rewrite Hb.
  - apply days_to_birthday_completes.
Qed.

Lemma clock_valid : valid_datetime clock.
Proof. unfold valid_datetime; simpl; repeat split; lia. Qed.

Lemma operations_complete_on_typed_arguments_witness :
  completes (new Birthday clock (PyInt 7))
  /\ new Phone clock PyNone = Raise TypeError
  /\ completes
       (days_to_birthday sample_heap clock
          (Record_init 7%nat (Some 3%nat) (Some 5%nat))).
Proof.
  destruct operations_complete_on_typed_arguments
    as (Hnew & _ & _ & _ & Hraise & _ & _ & _ & _ & _ & Hdays).
  split; [|split].
  - apply Hnew; discriminate.
  - apply Hraise; discriminate.
  - apply (Hdays sample_heap clock _ 5%nat (mk_datetime 1991 8 24 0 0 0 0));
      try reflexivity.
    + exact clock_valid.
    + unfold valid_datetime; simpl; repeat split; lia.
    + simpl; lia.
Defined.

(** ** The demonstration at the end of the source *)

Example sample_book_first_phone :
  match dict_getitem (data sample_book) (PyStr "Bill") with
  | Ok r => option_map (fun p => value (deref sample_heap p))
              (nth_error (phones r) 0)
  | Raise _ => None
  end = Some (PyStr "1234567890").
Proof. reflexivity. Qed.

Example sample_book_search_phone :
  search sample_heap sample_book (Ref 3%nat) = RVal (PyStr "John Doe").
Proof. reflexivity. Qed.

Example sample_book_page :
  fst (AddressBook_next sample_heap (AddressBook_iter sample_book) N)
  = Ok ("----------------------------------------------------------------------" ++ nl ++
        "|              User               |       Phones       |  Birthday   |" ++ nl ++
        "----------------------------------------------------------------------" ++ nl ++
        "| Bill                            |         1234567890 |             |" ++ nl ++
        "|                                 |         1234567890 |             |" ++ nl ++
        "----------------------------------------------------------------------" ++ nl ++
        "| John Doe                        |         0987654321 | 24.08.1991p |" ++ nl ++
        "----------------------------------------------------------------------" ++ nl)%string.
Proof. reflexivity. Qed.

(** * Further properties of the code *)

(** ** Birthday and Phone values *)

(** X1: [Birthday(v)] holds [v] exactly when [v] is a datetime whose year
    lies 1 to 100 years before the clock's year; any other value, a
    datetime out of that range or not a datetime at all, is dropped
    without an exception.  Only the years are compared. *)
Theorem Birthday_holds_date_iff_year_1_to_100 (now : datetime) (v : pyval) :
  new Birthday now v =
  Ok (mk_field Birthday
        (match v with
         | PyDatetime d =>
             if (1 <=? year now - year d) && (year now - year d <=? 100)
             then v else PyNone
         | _ => PyNone
         end)).
Proof.
  unfold new, value_setter; destruct v; simpl; try reflexivity.
  replace (0 <? year now - year d) with (1 <=? year now - year d)
    by (destruct (1 <=? _) eqn:E1, (0 <? _) eqn:E2; auto; lia).
  now destruct (_ && _).
Qed.

Lemma filter_str_length (f : ascii -> bool) (s : string) :
  (String.length (filter_str f s) <= String.length s)%nat.
Proof.
  induction s as [|c s IH]; simpl; [lia|].
  destruct (f c); simpl; lia.
Qed.

(** Whatever the rule of a class accepts is true as a Python value. *)
Lemma valid_value_truthy (c : field_class) (now : datetime) (v : pyval) :
  valid_value c now v = Ok true -> truthy v = true.
Proof.
  destruct c; simpl.
  - intros H; now inversion H.
  - intros H; now inversion H.
  - destruct v; try discriminate.
    intros H; injection H as Hb; simpl.
    apply andb_true_iff in Hb as [Hb _].
    apply andb_true_iff in Hb as [Hb _].
    apply Z.ltb_lt in Hb.
    pose proof (filter_str_length isdigit s) as Hl.
    unfold len in Hb.
    apply negb_true_iff, Nat.eqb_neq; lia.
  - destruct v; try discriminate; reflexivity.
Qed.



(** ** add_phone, remove_phone and edit_phone *)

(** X3: [add_phone] takes any field object that was built by a
    constructor and assigned to since: it appends the object, of whatever
    class, at the end of the list when it holds a value and leaves the
    record as it was when it holds none.  The test [if phone.value] loses
    nothing, since no accepted value is false as a Python value. *)
Theorem add_phone_appends_iff_value_held
  (h : heap) (self : record) (p : loc)
  (c : field_class) (now0 : datetime) (v0 : pyval) (o0 : field_obj)
  (attempts : list (datetime * pyval)) :
  new c now0 v0 = Ok o0 ->
  deref h p = fold_left attempt attempts o0 ->
  add_phone h self (Ref p) =
  Ok (match value (deref h p) with
      | PyNone => self
      | _ => set_phones self (phones self ++ [p])
      end).
Proof.
  intros Hnew Hp.
  destruct (new_holds_validated _ _ _ _ Hnew) as [_ Hv].
  pose proof (attempts_hold_validated attempts [(now0, v0)] o0 Hv) as Ho.
  rewrite <- Hp in Ho.
  rewrite add_phone_valued.
  destruct Ho as [-> | (now & _ & Hok)]; [reflexivity|].
  apply valid_value_truthy in Hok; rewrite Hok.
  destruct (value (deref h p)); try reflexivity; discriminate.
Qed.

Lemma add_phone_appends_iff_value_held_witness :
  add_phone sample_heap (Record_init 0%nat (Some 1%nat) None) (Ref 7%nat)
  = Ok (mk_record 0%nat [1%nat; 7%nat] None).
Proof.
  exact (add_phone_appends_iff_value_held sample_heap
           (Record_init 0%nat (Some 1%nat) None) 7%nat
           Name clock (PyStr "John Doe") _ [] eq_refl eq_refl).
Defined.

Lemma list_remove_fresh (x : loc) (pre suf : list loc) :
  ~ In x pre -> list_remove x (pre ++ x :: suf) = Ok (pre ++ suf).
Proof.
  induction pre as [|y pre IH]; simpl; intros Hx.
  - now rewrite Nat.eqb_refl.
  - destruct (Nat.eqb_spec y x) as [-> | _]; [tauto|].
    rewrite IH by tauto; reflexivity.
Qed.

Lemma remove_loop_stepping (h : heap) (phone : loc) (fuel : nat) :
  forall pre suf : list loc,
    (List.length suf <= fuel)%nat ->
    NoDup (pre ++ suf) ->
    for_list (remove_phone_body h phone) fuel (List.length pre) (pre ++ suf)
    = Ok (pre ++ remove_stepping (same_value h phone) suf).
Proof.
  induction fuel as [|fuel IH]; intros pre suf Hf Hnd.
  - destruct suf; simpl in *; [now rewrite app_nil_r | lia].
  - destruct suf as [|x suf].
    + simpl remove_stepping; rewrite app_nil_r.
      apply for_list_past_end; lia.
    + cbn [for_list]; rewrite nth_error_middle.
      unfold remove_phone_body at 1; fold (same_value h phone x).
      cbn [remove_stepping].
      destruct (same_value h phone x) eqn:Hx; cbn [bind].
      * rewrite list_remove_fresh
          by (apply NoDup_remove_2 in Hnd; intros Hin; apply Hnd;
              apply in_or_app; now left).
        cbn [bind].
        apply NoDup_remove_1 in Hnd.
        destruct suf as [|y suf].
        -- rewrite app_nil_r; apply for_list_past_end; lia.
        -- specialize (IH (pre ++ [y]) suf).
           rewrite length_app, Nat.add_1_r, <- app_assoc in IH.
           simpl in IH, Hf; rewrite IH; [now rewrite <- app_assoc | lia |].
           exact Hnd.
      * specialize (IH (pre ++ [x]) suf).
        rewrite length_app, Nat.add_1_r, <- app_assoc in IH.
        simpl in IH, Hf; rewrite IH; [now rewrite <- app_assoc | lia |].
        exact Hnd.
Qed.

(** X4: on a list of distinct phone objects [remove_phone] never raises
    and leaves exactly this: each phone of the value of [phone] that the
    loop meets is removed, and the phone that stood right after it is
    stepped over and stays, whatever its value. *)
Theorem remove_phone_steps_over_right_neighbour
  (h : heap) (self : record) (phone : loc) :
  NoDup (phones self) ->
  remove_phone h self phone
  = Ok (set_phones self
          (remove_stepping (same_value h phone) (phones self))).
Proof.
  intros Hnd; unfold remove_phone.
  pose proof (remove_loop_stepping h phone (List.length (phones self))
                [] (phones self) (le_n _) Hnd) as Hl.
  simpl in Hl; rewrite Hl; reflexivity.
Qed.

Lemma remove_phone_steps_over_right_neighbour_witness :
  remove_phone sample_heap (mk_record 0%nat [1%nat; 2%nat; 3%nat] None) 1%nat
  = Ok (mk_record 0%nat [2%nat; 3%nat] None).
Proof.
  apply (remove_phone_steps_over_right_neighbour sample_heap
           (mk_record 0%nat [1%nat; 2%nat; 3%nat] None) 1%nat).
  repeat constructor; simpl; intuition discriminate.
Defined.

Lemma existsb_filter_negb {A : Type} (f : A -> bool) (l : list A) :
  existsb f (filter (fun x => negb (f x)) l) = false.
Proof.
  induction l as [|x l IH]; simpl; [reflexivity|].
  destruct (f x) eqn:E; simpl; [assumption|].
  now rewrite E.
Qed.

(** X5: when no two neighbours in the list have the value of [phone],
    [remove_phone] removes every phone of that value and keeps the others
    in their order; no phone of that value is left.  This holds also when
    one phone object is listed more than once. *)
Theorem remove_phone_clears_separated_matches
  (h : heap) (self : record) (phone : loc) :
  no_adjacent (same_value h phone) (phones self) = true ->
  exists r,
    remove_phone h self phone = Ok r
    /\ phones r
       = filter (fun p => negb (same_value h phone p)) (phones self)
    /\ name r = name self /\ birthday r = birthday self
    /\ holds_phone h (value (deref h phone)) r = false.
Proof.
  intros H; unfold remove_phone.
  pose proof (remove_loop_no_adjacent h phone (List.length (phones self))
                [] (phones self) (le_n _) eq_refl H) as Hl.
  simpl in Hl; rewrite Hl; simpl.
  eexists; split; [reflexivity|]; simpl.
  repeat split.
  unfold holds_phone; simpl.
  apply (existsb_filter_negb (same_value h phone)).
Qed.

Lemma remove_phone_clears_separated_matches_witness :
  exists r,
    remove_phone sample_heap
      (mk_record 0%nat [1%nat; 3%nat; 2%nat; 3%nat; 1%nat] None) 2%nat
    = Ok r
    /\ phones r = [3%nat; 3%nat].
Proof.
  destruct (remove_phone_clears_separated_matches sample_heap
              (mk_record 0%nat [1%nat; 3%nat; 2%nat; 3%nat; 1%nat] None)
              2%nat eq_refl) as (r & Hr & Hp & _).
  exists r; split; [exact Hr | exact Hp].
Defined.

Lemma existsb_map_edit_one (h : heap) (old_phone new_phone : loc)
  (l : list loc) :
  same_value h old_phone new_phone = false ->
  existsb (fun p => pyval_eqb (value (deref h old_phone)) (value (deref h p)))
          (map (edit_one h old_phone new_phone) l) = false.
Proof.
  intros Hnew; induction l as [|p l IH]; simpl; [reflexivity|].
  rewrite IH, orb_false_r.
  unfold edit_one.
  destruct (same_value h old_phone p) eqn:E; [exact Hnew | exact E].
Qed.

(** X6: [edit_phone] never raises and changes nothing but the matching
    entries of the phone list: name, birthday and the number of phones
    stay.  When [new_phone] has another value than [old_phone], no phone
    of the old value is left afterwards; and when the record held the old
    value, it now lists [new_phone]. *)
Theorem edit_phone_leaves_no_old_value
  (h : heap) (self : record) (old_phone new_phone : loc) :
  exists r,
    edit_phone h self old_phone new_phone = Ok r
    /\ name r = name self /\ birthday r = birthday self
    /\ List.length (phones r) = List.length (phones self)
    /\ (same_value h old_phone new_phone = false ->
        holds_phone h (value (deref h old_phone)) r = false)
    /\ (holds_phone h (value (deref h old_phone)) self = true ->
        In new_phone (phones r)).
Proof.
  rewrite edit_phone_map.
  eexists; split; [reflexivity|]; simpl.
  repeat split.
  - apply length_map.
  - intros Hnew; unfold holds_phone; simpl.
    now apply existsb_map_edit_one.
  - unfold holds_phone; intros Hold.
    apply existsb_exists in Hold as (p & Hin & Hp).
    apply in_map_iff; exists p; split; [|assumption].
    unfold edit_one, same_value; now rewrite Hp.
Qed.

Lemma edit_phone_leaves_no_old_value_witness :
  exists r,
    edit_phone sample_heap two_equal_phones 1%nat 3%nat = Ok r
    /\ holds_phone sample_heap (PyStr "1234567890") r = false
    /\ In 3%nat (phones r).
Proof.
  destruct (edit_phone_leaves_no_old_value sample_heap two_equal_phones
              1%nat 3%nat) as (r & Hr & _ & _ & _ & Hgone & Hin).
  exists r; split; [exact Hr | split].
  - exact (Hgone eq_refl).
  - exact (Hin eq_refl).
Defined.

(** ** add_record and search *)

Lemma dict_getitem_setitem_same (d : list (pyval * record)) (k : pyval)
  (r : record) :
  dict_getitem (dict_setitem d k r) k = Ok r.
Proof.
  induction d as [|[k' r'] d IH]; simpl.
  - now rewrite pyval_eqb_refl.
  - destruct (pyval_eqb k' k) eqn:E; simpl; now rewrite E.
Qed.

Lemma dict_getitem_setitem_other (d : list (pyval * record)) (k k' : pyval)
  (r : record) :
  k' <> k -> dict_getitem (dict_setitem d k r) k' = dict_getitem d k'.
Proof.
  intros Hne; induction d as [|[k0 r0] d IH]; simpl.
  - replace (pyval_eqb k k') with false; [reflexivity|].
    symmetry; apply pyval_eqb_neq; congruence.
  - destruct (pyval_eqb k0 k) eqn:E; simpl.
    + apply pyval_eqb_eq in E; subst k0.
      replace (pyval_eqb k k') with false; [reflexivity|].
      symmetry; apply pyval_eqb_neq; congruence.
    + now rewrite IH.
Qed.

Lemma dict_setitem_present (d : list (pyval * record)) (k : pyval)
  (r : record) :
  In k (map fst d) ->
  map fst (dict_setitem d k r) = map fst d
  /\ List.length (dict_setitem d k r) = List.length d.
Proof.
  induction d as [|[k' r'] d IH]; simpl; [tauto|].
  intros Hin.
  destruct (pyval_eqb k' k) eqn:E; simpl; [split; reflexivity|].
  apply pyval_eqb_neq in E.
  destruct Hin as [H | H]; [congruence|].
  destruct (IH H) as [-> ->]; split; reflexivity.
Qed.

Lemma dict_setitem_absent (d : list (pyval * record)) (k : pyval)
  (r : record) :
  ~ In k (map fst d) -> dict_setitem d k r = d ++ [(k, r)].
Proof.
  induction d as [|[k' r'] d IH]; simpl; intros Hnot; [reflexivity|].
  destruct (pyval_eqb k' k) eqn:E.
  - apply pyval_eqb_eq in E; tauto.
  - rewrite IH by tauto; reflexivity.
Qed.

Lemma dict_setitem_In (d : list (pyval * record)) (k : pyval) (r : record) :
  In (k, r) (dict_setitem d k r).
Proof.
  induction d as [|[k' r'] d IH]; simpl; [now left|].
  destruct (pyval_eqb k' k) eqn:E.
  - apply pyval_eqb_eq in E; subst; now left.
  - now right.
Qed.

(** X7: a record just added is what the book gives back under its name,
    and the entries under every other key are as they were. *)
Theorem add_record_then_lookup (h : heap) (self : AddressBook) (r : record) :
  dict_getitem (data (add_record h self r)) (value (deref h (name r)))
  = Ok r
  /\ forall k, k <> value (deref h (name r)) ->
               dict_getitem (data (add_record h self r)) k
               = dict_getitem (data self) k.
Proof.
  unfold add_record; simpl; split.
  - apply dict_getitem_setitem_same.
  - intros k Hk; now apply dict_getitem_setitem_other.
Qed.

Lemma add_record_then_lookup_witness :
  dict_getitem (data (add_record sample_heap sample_book two_equal_phones))
    (PyStr "John Doe")
  = dict_getitem (data sample_book) (PyStr "John Doe").
Proof.
  apply (proj2 (add_record_then_lookup sample_heap sample_book
                  two_equal_phones)).
  discriminate.
Defined.

(** X8: [add_record] keeps the order of the book.  Under a name the book
    already has, the record takes the place of the old one: the keys, their
    order and their number stay.  Under a new name the record goes last.
    The iterator of the book is not touched. *)
Theorem add_record_keeps_order (h : heap) (self : AddressBook) (r : record) :
  let k := value (deref h (name r)) in
  (In k (map fst (data self)) ->
   map fst (data (add_record h self r)) = map fst (data self)
   /\ List.length (data (add_record h self r)) = List.length (data self))
  /\ (~ In k (map fst (data self)) ->
      data (add_record h self r) = data self ++ [(k, r)])
  /\ keys_iter (add_record h self r) = keys_iter self.
Proof.
  unfold add_record; simpl; repeat split.
  - now apply dict_setitem_present.
  - now apply dict_setitem_present.
  - now apply dict_setitem_absent.
Qed.

Lemma add_record_keeps_order_witness :
  map fst (data (add_record sample_heap sample_book
                   (Record_init 0%nat None None)))
  = [PyStr "Bill"; PyStr "John Doe"]
  /\ data (add_record sample_heap AddressBook_init two_equal_phones)
     = [(PyStr "Bill", two_equal_phones)].
Proof.
  split.
  - apply (proj1 (add_record_keeps_order sample_heap sample_book
                    (Record_init 0%nat None None))).
    now left.
  - apply (proj1 (proj2 (add_record_keeps_order sample_heap AddressBook_init
                           two_equal_phones))).
    intros [].
Defined.

(** X9: of two records added one after the other under names of equal
    value, the book keeps the second alone: it has the entries it had
    after the first, and the lookup of the name gives the second. *)
Theorem add_record_twice_keeps_second
  (h : heap) (self : AddressBook) (r1 r2 : record) :
  value (deref h (name r1)) = value (deref h (name r2)) ->
  let once := add_record h self r1 in
  let twice := add_record h once r2 in
  map fst (data twice) = map fst (data once)
  /\ dict_getitem (data twice) (value (deref h (name r1))) = Ok r2
  /\ forall k, k <> value (deref h (name r1)) ->
               dict_getitem (data twice) k = dict_getitem (data self) k.
Proof.
  intros Hk once twice; unfold twice, once, add_record; simpl.
  rewrite <- Hk.
  repeat split.
  - apply dict_setitem_present.
    change (value (deref h (name r1)))
      with (fst (value (deref h (name r1)), r1)).
    apply in_map, dict_setitem_In.
  - apply dict_getitem_setitem_same.
  - intros k Hne.
    rewrite !dict_getitem_setitem_other by assumption; reflexivity.
Qed.

Lemma add_record_twice_keeps_second_witness :
  dict_getitem
    (data (add_record sample_heap
             (add_record sample_heap AddressBook_init two_equal_phones)
             (Record_init 0%nat (Some 3%nat) None)))
    (PyStr "Bill")
  = Ok (Record_init 0%nat (Some 3%nat) None).
Proof.
  exact (proj1 (proj2 (add_record_twice_keeps_second sample_heap
                         AddressBook_init two_equal_phones
                         (Record_init 0%nat (Some 3%nat) None) eq_refl))).
Defined.

(** X10: after [add_record], a search with a Name of the value of the
    record's name gives the values of the record's phones, in order. *)
Theorem add_record_then_search_name
  (h : heap) (self : AddressBook) (r : record) (q : loc) :
  NoDup (map fst (data self)) ->
  cls (deref h q) = Name ->
  value (deref h q) = value (deref h (name r)) ->
  search h (add_record h self r) (Ref q) = RList (phone_values h r).
Proof.
  intros Hnd Hc Hv.
  unfold search; rewrite Hc, search_name_loop.
  rewrite (find_last_key _ (value (deref h q)) r); [reflexivity | |].
  - now apply add_record_keys_distinct.
  - rewrite Hv; unfold add_record; simpl; apply dict_setitem_In.
Qed.

Lemma add_record_then_search_name_witness :
  search sample_heap (add_record sample_heap sample_book two_equal_phones)
    (Ref 0%nat)
  = RList [PyStr "1234567890"; PyStr "1234567890"].
Proof.
  apply (add_record_then_search_name sample_heap sample_book
           two_equal_phones 0%nat); try reflexivity.
  repeat constructor; simpl; intuition discriminate.
Defined.

(** X11: after [add_record] under a new name, a search with a Phone whose
    value one of the record's phones has gives that name: the new entry is
    the last of the scan, so it wins over earlier owners of the value. *)
Theorem add_record_then_search_phone
  (h : heap) (self : AddressBook) (r : record) (q p : loc) :
  ~ In (value (deref h (name r))) (map fst (data self)) ->
  cls (deref h q) = Phone ->
  In p (phones r) ->
  value (deref h q) = value (deref h p) ->
  search h (add_record h self r) (Ref q)
  = RVal (value (deref h (name r))).
Proof.
  intros Hnew Hc Hin Hv.
  unfold search; rewrite Hc, search_phone_loop.
  unfold add_record; simpl.
  rewrite dict_setitem_absent by assumption.
  rewrite find_last_app; simpl.
  replace (holds_phone h (value (deref h q)) r) with true; [reflexivity|].
  symmetry; unfold holds_phone; apply existsb_exists.
  exists p; split; [assumption|].
  rewrite Hv; apply pyval_eqb_refl.
Qed.

Lemma add_record_then_search_phone_witness :
  search sample_heap
    (add_record sample_heap
       (add_record sample_heap AddressBook_init two_equal_phones)
       (mk_record 7%nat [3%nat; 2%nat] None))
    (Ref 1%nat)
  = RVal (PyStr "John Doe").
Proof.
  apply (add_record_then_search_phone sample_heap
           (add_record sample_heap AddressBook_init two_equal_phones)
           (mk_record 7%nat [3%nat; 2%nat] None) 1%nat 2%nat);
    try reflexivity.
  - simpl; intuition discriminate.
  - simpl; auto.
Defined.

(** ** More on days_to_birthday *)

Lemma leap_then_next_not (y : Z) :
  is_leap y = true -> is_leap (y + 1) = false.
Proof.
  unfold is_leap; intros H.
  apply andb_true_iff in H as [H _]; apply Z.eqb_eq in H.
  replace ((y + 1) mod 4 =? 0) with false; [reflexivity|].
  symmetry; apply Z.eqb_neq.
  Z.div_mod_to_equations; lia.
Qed.

Lemma ymd2ord_date_before (y m1 d1 m2 d2 : Z) :
  check_date_fields y m1 d1 = true ->
  check_date_fields y m2 d2 = true ->
  date_before m1 d1 m2 d2 ->
  ymd2ord y m1 d1 < ymd2ord y m2 d2.
Proof.
  rewrite !check_date_fields_spec.
  intros (_ & Hm1 & Hd1) (_ & Hm2 & Hd2) Hb.
  unfold date_before in Hb.
  unfold ymd2ord, days_before_month, days_in_month in *.
  destruct (is_leap y);
    each_month Hm1; each_month Hm2; simpl in *; lia.
Qed.

Lemma ymd2ord_within_year (y m d : Z) :
  check_date_fields y m d = true ->
  days_before_year y + 1 <= ymd2ord y m d
  <= days_before_year y + 365 + (if is_leap y then 1 else 0).
Proof.
  rewrite check_date_fields_spec.
  intros (_ & Hm & Hd).
  unfold ymd2ord, days_before_month, days_in_month in *.
  destruct (is_leap y); each_month Hm; simpl in *; lia.
Qed.

Lemma time_of_day_range (t : datetime) :
  valid_datetime t -> 0 <= time_of_day t < US_PER_DAY.
Proof.
  intros (_ & Hh & Hm & Hs & Hu); unfold time_of_day, US_PER_DAY; lia.
Qed.

Lemma datetime_sub_from_midnight (now : datetime) (y m d : Z) :
  datetime_sub (mk_datetime y m d 0 0 0 0) now
  = (ymd2ord y m d - toordinal now) * US_PER_DAY - time_of_day now.
Proof.
  unfold datetime_sub, toordinal, time_of_day; simpl; lia.
Qed.

(** The [days] of a difference: the whole days, one less when a part of
    a day is taken off. *)
Lemma days_of_difference (D t : Z) :
  0 <= t < US_PER_DAY ->
  days (D * US_PER_DAY - t) = D - (if t =? 0 then 0 else 1).
Proof.
  intros Ht; unfold days.
  destruct (Z.eqb_spec t 0) as [-> | Hne].
  - rewrite Z.sub_0_r, Z.div_mul; [lia | discriminate].
  - symmetry; apply (Z.div_unique_pos _ _ _ (US_PER_DAY - t)); lia.
Qed.

(** The rollover test against this year's date at midnight. *)
Lemma datetime_gt_date (now : datetime) (m d : Z) :
  valid_datetime now ->
  datetime_gt now (mk_datetime (year now) m d 0 0 0 0) = true <->
  date_before m d (month now) (day now)
  \/ (month now = m /\ day now = d /\ time_of_day now <> 0).
Proof.
  intros (_ & Hh & Hmi & Hs & Hu).
  unfold datetime_gt, fields, date_before, time_of_day; simpl.
  rewrite Z.compare_refl.
  destruct (Z.compare_spec (month now) m), (Z.compare_spec (day now) d),
    (Z.compare_spec (hour now) 0), (Z.compare_spec (minute now) 0),
    (Z.compare_spec (second now) 0), (Z.compare_spec (microsecond now) 0);
    simpl; split; intros Hside; try discriminate; try reflexivity; lia.
Qed.

(** What [days_to_birthday] computes when this year's date exists. *)
Lemma days_to_birthday_value (h : heap) (now : datetime) (self : record)
  (b : loc) (bv : datetime) :
  birthday self = Some b ->
  value (deref h b) = PyDatetime bv ->
  valid_datetime now ->
  check_date_fields (year now) (month bv) (day bv) = true ->
  let late := if time_of_day now =? 0 then 0 else 1 in
  days_to_birthday h now self =
  if datetime_gt now (mk_datetime (year now) (month bv) (day bv) 0 0 0 0)
  then
    if check_date_fields (year now + 1) (month bv) (day bv)
    then Ok (PyInt (ymd2ord (year now + 1) (month bv) (day bv)
                    - toordinal now - late))
    else Raise ValueError
  else Ok (PyInt (ymd2ord (year now) (month bv) (day bv)
                  - toordinal now - late)).
Proof.
  intros Hb Hv Hnow Hdate late.
  pose proof (time_of_day_range now Hnow) as Ht.
  unfold days_to_birthday, datetime_ymd; rewrite Hb, Hv; simpl.
  rewrite Hdate; simpl.
  destruct (datetime_gt _ _).
  - destruct (check_date_fields (year now + 1) _ _); simpl; [|reflexivity].
    rewrite datetime_sub_from_midnight, days_of_difference by assumption.
    reflexivity.
  - simpl.
    rewrite datetime_sub_from_midnight, days_of_difference by assumption.
    reflexivity.
Qed.

(** X12: for a birthday on any date but 29 February (and a clock year
    below 9999) [days_to_birthday] returns an integer from 0 to 365; it is
    never negative, also when this year's date has passed. *)
Theorem days_to_birthday_between_0_and_365
  (h : heap) (now : datetime) (self : record) (b : loc) (bv : datetime) :
  birthday self = Some b ->
  value (deref h b) = PyDatetime bv ->
  valid_datetime now -> valid_datetime bv ->
  ~ (month bv = 2 /\ day bv = 29) ->
  year now < MAXYEAR ->
  exists k, days_to_birthday h now self = Ok (PyInt k) /\ 0 <= k <= 365.
Proof.
  intros Hb Hv Hnow (Hbv & _) Hfeb Hyear.
  pose proof Hnow as (Hdate & _).
  pose proof (proj1 (check_date_fields_spec _ _ _) Hdate) as (Hy & _).
  assert (H1 : check_date_fields (year now) (month bv) (day bv) = true).
  { apply (check_date_fields_other_year (year bv)); tauto. }
  assert (H2 : check_date_fields (year now + 1) (month bv) (day bv) = true).
  { apply (check_date_fields_other_year (year bv)); auto.
    unfold MINYEAR in *; lia. }
  rewrite (days_to_birthday_value h now self b bv Hb Hv Hnow H1), H2.
  pose proof (time_of_day_range now Hnow) as Ht.
  pose proof (ymd2ord_within_year _ _ _ Hdate) as Wnow.
  pose proof (ymd2ord_within_year _ _ _ H1) as W1.
  pose proof (ymd2ord_within_year _ _ _ H2) as W2.
  pose proof (year_length (year now)) as Hlen.
  pose proof (same_date_next_year (year now) (month bv) (day bv)) as Hnext.
  fold (toordinal now) in Wnow.
  destruct (datetime_gt _ _) eqn:Hgt.
  - eexists; split; [reflexivity|].
    apply datetime_gt_date in Hgt; [|assumption].
    destruct Hgt as [Hbefore | (Hm & Hd & Hlate)].
    + pose proof (ymd2ord_date_before _ _ _ _ _ H1 Hdate Hbefore) as Hlt.
      fold (toordinal now) in Hlt.
      destruct (time_of_day now =? 0), (is_leap (year now)); lia.
    + assert (Hsame : toordinal now
                      = ymd2ord (year now) (month bv) (day bv))
        by (unfold toordinal; now rewrite Hm, Hd).
      destruct (Z.eqb_spec (time_of_day now) 0); [contradiction|].
      destruct (is_leap (year now)); lia.
  - eexists; split; [reflexivity|].
    assert (Hcase : date_before (month now) (day now) (month bv) (day bv)
                    \/ (month now = month bv /\ day now = day bv
                        /\ time_of_day now = 0)).
    { destruct (Z.eq_dec (time_of_day now) 0) as [H0 | H0];
        assert (Hn : ~ (date_before (month bv) (day bv) (month now) (day now)
                        \/ (month now = month bv /\ day now = day bv
                            /\ time_of_day now <> 0)))
          by (intros H; apply datetime_gt_date in H; [congruence | assumption]);
        unfold date_before in *; lia. }
    destruct Hcase as [Hbefore | (Hm & Hd & H0)].
    + pose proof (ymd2ord_date_before _ _ _ _ _ Hdate H1 Hbefore) as Hlt.
      fold (toordinal now) in Hlt.
      destruct (time_of_day now =? 0), (is_leap (year now)); lia.
    + assert (Hsame : toordinal now
                      = ymd2ord (year now) (month bv) (day bv))
        by (unfold toordinal; now rewrite Hm, Hd).
      rewrite H0; simpl; lia.
Qed.

Lemma days_to_birthday_between_0_and_365_witness :
  exists k,
    days_to_birthday sample_heap clock
      (Record_init 7%nat (Some 3%nat) (Some 5%nat)) = Ok (PyInt k)
    /\ 0 <= k <= 365.
Proof.
  apply (days_to_birthday_between_0_and_365 sample_heap clock _ 5%nat
           (mk_datetime 1991 8 24 0 0 0 0)); try reflexivity.
  - exact clock_valid.
  - unfold valid_datetime; simpl; repeat split; lia.
  - simpl; lia.
Defined.

(** X13: while this year's date is still ahead, [days_to_birthday]
    returns the number of days from today to it, less one unless the
    clock shows midnight exactly: on the eve of the birthday it returns
    0 at every moment after midnight. *)
Theorem days_to_birthday_before_the_day
  (h : heap) (now : datetime) (self : record) (b : loc) (bv : datetime) :
  birthday self = Some b ->
  value (deref h b) = PyDatetime bv ->
  valid_datetime now ->
  check_date_fields (year now) (month bv) (day bv) = true ->
  date_before (month now) (day now) (month bv) (day bv) ->
  days_to_birthday h now self
  = Ok (PyInt (ymd2ord (year now) (month bv) (day bv) - toordinal now
               - (if time_of_day now =? 0 then 0 else 1))).
Proof.
  intros Hb Hv Hnow Hdate Hbefore.
  rewrite (days_to_birthday_value h now self b bv Hb Hv Hnow Hdate).
  replace (datetime_gt _ _) with false; [reflexivity|].
  symmetry; apply not_true_iff_false; intros Hgt.
  apply datetime_gt_date in Hgt; [|assumption].
  unfold date_before in *; lia.
Qed.

Lemma days_to_birthday_before_the_day_witness :
  days_to_birthday sample_heap (mk_datetime 2023 8 23 9 0 0 0)
    (Record_init 7%nat (Some 3%nat) (Some 5%nat))
  = Ok (PyInt 0).
Proof.
  apply (days_to_birthday_before_the_day sample_heap
           (mk_datetime 2023 8 23 9 0 0 0) _ 5%nat
           (mk_datetime 1991 8 24 0 0 0 0)); try reflexivity.
  - unfold valid_datetime; simpl; repeat split; lia.
  - unfold date_before; simpl; lia.
Defined.

(** X14: for a birthday on 29 February [days_to_birthday] raises
    [ValueError] in every year that is not a leap year, and in a leap
    year too once 29 February, midnight, has passed, since the next
    year has no such date. *)
Theorem days_to_birthday_29_february_raises
  (h : heap) (now : datetime) (self : record) (b : loc) (bv : datetime) :
  birthday self = Some b ->
  value (deref h b) = PyDatetime bv ->
  month bv = 2 -> day bv = 29 ->
  valid_datetime now ->
  is_leap (year now) = false
  \/ datetime_gt now (mk_datetime (year now) 2 29 0 0 0 0) = true ->
  days_to_birthday h now self = Raise ValueError.
Proof.
  intros Hb Hv Hm Hd Hnow Hcase.
  destruct (is_leap (year now)) eqn:Hleap.
  - destruct Hcase as [H | Hgt]; [discriminate|].
    assert (Hdate : check_date_fields (year now) (month bv) (day bv) = true).
    { destruct Hnow as (Hnow & _).
      rewrite Hm, Hd; apply check_date_fields_spec.
      apply check_date_fields_spec in Hnow.
      unfold days_in_month; rewrite Hleap; simpl; lia. }
    rewrite (days_to_birthday_value h now self b bv Hb Hv Hnow Hdate).
    rewrite Hm, Hd, Hgt.
    replace (check_date_fields (year now + 1) 2 29) with false;
      [reflexivity|].
    symmetry; apply not_true_iff_false; intros H.
    apply check_date_fields_spec in H.
    unfold days_in_month in H.
    rewrite (leap_then_next_not _ Hleap) in H; simpl in H; lia.
  - unfold days_to_birthday, datetime_ymd; rewrite Hb, Hv; simpl.
    replace (check_date_fields (year now) (month bv) (day bv)) with false;
      [reflexivity|].
    symmetry; apply not_true_iff_false; intros H.
    apply check_date_fields_spec in H.
    unfold days_in_month in H.
    rewrite Hm, Hd, Hleap in H; simpl in H; lia.
Qed.

Lemma days_to_birthday_29_february_raises_witness :
  days_to_birthday sample_heap (mk_datetime 2024 3 1 0 0 0 0)
    (Record_init 0%nat None (Some 6%nat))
  = Raise ValueError.
Proof.
  apply (days_to_birthday_29_february_raises sample_heap
           (mk_datetime 2024 3 1 0 0 0 0) _ 6%nat
           (mk_datetime 2000 2 29 0 0 0 0)); try reflexivity.
  - unfold valid_datetime; simpl; repeat split; lia.
  - right; reflexivity.
Defined.

(** X15: a Birthday object that holds no value, because the constructor
    rejected what it was given, passes the test [if self.birthday] all the
    same: on a record built with it [days_to_birthday] raises
    [AttributeError], and so does the formatting of the record's rows. *)
Theorem unset_birthday_raises_AttributeError
  (h : heap) (now0 now : datetime) (v : pyval) (self : record) (b : loc) :
  new Birthday now0 v = Ok (deref h b) ->
  valid_value Birthday now0 v = Ok false ->
  birthday self = Some b ->
  days_to_birthday h now self = Raise AttributeError
  /\ forall acc key, contact_rows h acc (key, self) = Raise AttributeError.
Proof.
  intros Hnew Hbad Hb.
  assert (Hv : value (deref h b) = PyNone).
  { unfold new, value_setter in Hnew; simpl in Hnew.
    simpl in Hbad; rewrite Hbad in Hnew; simpl in Hnew.
    injection Hnew as <-; reflexivity. }
  split.
  - unfold days_to_birthday; now rewrite Hb, Hv.
  - intros acc key; unfold contact_rows; now rewrite Hb, Hv.
Qed.

Lemma unset_birthday_raises_AttributeError_witness :
  let h := [built (new Birthday clock
                     (PyDatetime (mk_datetime 1900 1 1 0 0 0 0)))] in
  days_to_birthday h clock (Record_init 0%nat None (Some 0%nat))
  = Raise AttributeError.
Proof.
  intros h.
  exact (proj1 (unset_birthday_raises_AttributeError h clock clock
                  (PyDatetime (mk_datetime 1900 1 1 0 0 0 0))
                  (Record_init 0%nat None (Some 0%nat)) 0%nat
                  eq_refl eq_refl eq_refl)).
Defined.

(** ** More on pages *)

Lemma after_pages_state (h : heap) (self : AddressBook) (n : Z) (i : nat) :
  0 < n -> NoDup (map fst (data self)) ->
  let b := after_pages h n i (AddressBook_iter self) in
  data b = data self /\ in_step b
  /\ remaining b = skipn (i * Z.to_nat n) (data self).
Proof.
  intros Hn Hnd; induction i as [|i IH]; simpl.
  - unfold in_step, remaining, AddressBook_iter, dict_iter_new; simpl.
    rewrite Nat.eqb_refl; repeat split; lia.
  - destruct IH as (Hd & Hs & Hr).
    destruct (next_page h (after_pages h n i (AddressBook_iter self)) n Hn)
      as (b' & E & Hd' & Hs' & Hr'); [now rewrite Hd | assumption |].
    rewrite E; simpl.
    repeat split; [congruence | assumption |].
    rewrite Hr', Hr, skipn_skipn; reflexivity.
Qed.

(** X16: paging with any size [n] of at least one.  After [iter], request
    number [i + 1] gives the page of the records [i * n] to
    [i * n + n - 1] of the book, in the order of insertion, the last page
    being shorter when the records run out; once [i * n] reaches the
    number of records the request raises [StopIteration]. *)
Theorem page_of_any_size (h : heap) (self : AddressBook) (n : Z) (i : nat) :
  0 < n -> NoDup (map fst (data self)) ->
  let k := Z.to_nat n in
  let b := after_pages h n i (AddressBook_iter self) in
  ((i * k < List.length (data self))%nat ->
   fst (AddressBook_next h b n)
   = render_page h (firstn k (skipn (i * k) (data self))))
  /\ ((List.length (data self) <= i * k)%nat ->
      fst (AddressBook_next h b n) = Raise StopIteration).
Proof.
  intros Hn Hnd k b.
  destruct (after_pages_state h self n i Hn Hnd) as (Hd & Hs & Hr).
  fold b in Hd, Hs, Hr; fold k in Hr.
  destruct (next_page h b n Hn) as (b' & E & _);
    [now rewrite Hd | assumption |].
  rewrite E, Hr; fold k; simpl.
  split; intros Hi.
  - apply page_or_stop_some.
    rewrite length_firstn, length_skipn; lia.
  - rewrite skipn_all2 by lia.
    now rewrite firstn_nil.
Qed.

Lemma page_of_any_size_witness :
  fst (AddressBook_next heap25
         (after_pages heap25 7 3 (AddressBook_iter book25)) 7)
  = render_page heap25 (firstn 7 (skipn 21 (data book25)))
  /\ fst (AddressBook_next heap25
            (after_pages heap25 7 4 (AddressBook_iter book25)) 7)
     = Raise StopIteration.
Proof.
  split.
  - apply (proj1 (page_of_any_size heap25 book25 7 3 eq_refl
                    book25_keys_distinct)).
    vm_compute; lia.
  - apply (proj2 (page_of_any_size heap25 book25 7 4 eq_refl
                    book25_keys_distinct)).
    vm_compute; lia.
Defined.

(** X17: a page request of size zero or less gathers nothing and never
    meets the end of the iteration: on every book, spent or not, iterated
    or not, it returns the page that has the heading alone and leaves the
    book as it is. *)
Theorem page_of_size_0_is_heading (h : heap) (self : AddressBook) (n : Z) :
  n <= 0 ->
  AddressBook_next h self n = (Ok (rule ++ header ++ rule)%string, self).
Proof.
  intros Hn; unfold AddressBook_next.
  replace (Z.to_nat n) with 0%nat by lia.
  destruct self; reflexivity.
Qed.

Lemma page_of_size_0_is_heading_witness :
  AddressBook_next sample_heap AddressBook_init 0
  = (Ok (rule ++ header ++ rule)%string, AddressBook_init).
Proof.
  apply (page_of_size_0_is_heading sample_heap AddressBook_init 0).
  lia.
Defined.

Lemma add_records_keys_iter (h : heap) (rs : list record)
  (self : AddressBook) :
  keys_iter (fold_left (add_record h) rs self) = keys_iter self.
Proof.
  revert self; induction rs as [|r rs IH]; intros self; simpl;
    [reflexivity|].
  now rewrite IH.
Qed.

(** X18: [__iter__] alone makes the attribute [keys_iter].  On a book that
    was only filled with records, a page request of size at least one
    raises [AttributeError], whatever the book holds. *)
Theorem page_before_iter_raises (h : heap) (rs : list record) (n : Z) :
  0 < n ->
  fst (AddressBook_next h (fold_left (add_record h) rs AddressBook_init) n)
  = Raise AttributeError.
Proof.
  intros Hn; unfold AddressBook_next.
  rewrite add_records_keys_iter; simpl.
  destruct (Z.to_nat n) eqn:E; [lia | reflexivity].
Qed.

Lemma page_before_iter_raises_witness :
  fst (AddressBook_next sample_heap
         (fold_left (add_record sample_heap) [two_equal_phones]
            AddressBook_init) N)
  = Raise AttributeError.
Proof.
  apply (page_before_iter_raises sample_heap [two_equal_phones] N).
  reflexivity.
Defined.

Lemma after_pages_live (h : heap) (self : AddressBook) (n : Z) (i : nat) :
  0 < n -> NoDup (map fst (data self)) ->
  (i * Z.to_nat n <= List.length (data self))%nat ->
  after_pages h n i (AddressBook_iter self)
  = mk_book (data self)
      (Some (DictIter (List.length (data self)) (i * Z.to_nat n))).
Proof.
  intros Hn Hnd; induction i as [|i IH]; intros Hi; simpl.
  - reflexivity.
  - rewrite IH by lia.
    unfold AddressBook_next; cbn [data keys_iter].
    rewrite (next_items_in_step (data self) Hnd) by lia.
    rewrite length_skipn.
    replace (Z.to_nat n <=? List.length (data self) - i * Z.to_nat n)%nat
      with true by (symmetry; apply Nat.leb_le; simpl in Hi; lia).
    simpl; do 3 f_equal; lia.
Qed.

(** X19: adding a record under a new name between two page requests
    breaks the paging: while the iterator has not met the end, the next
    request of size at least one raises [RuntimeError], the dict having
    changed size under its iterator. *)
Theorem page_after_new_record_raises
  (h : heap) (self : AddressBook) (r : record) (n : Z) (i : nat) :
  0 < n -> NoDup (map fst (data self)) ->
  (i * Z.to_nat n <= List.length (data self))%nat ->
  ~ In (value (deref h (name r))) (map fst (data self)) ->
  fst (AddressBook_next h
         (add_record h (after_pages h n i (AddressBook_iter self)) r) n)
  = Raise RuntimeError.
Proof.
  intros Hn Hnd Hi Hnew.
  rewrite after_pages_live by assumption.
  unfold add_record, AddressBook_next; cbn [data keys_iter].
  rewrite dict_setitem_absent by assumption.
  destruct (Z.to_nat n) as [|k] eqn:E; [lia|].
  cbn [next_items dict_iter_next].
  rewrite length_app; simpl.
  replace (List.length (data self) + 1 =? List.length (data self))%nat
    with false by (symmetry; apply Nat.eqb_neq; lia).
  reflexivity.
Qed.

Lemma page_after_new_record_raises_witness :
  fst (AddressBook_next sample_heap
         (add_record sample_heap
            (after_pages sample_heap N 0
               (AddressBook_iter
                  (add_record sample_heap AddressBook_init
                     two_equal_phones)))
            (Record_init 7%nat (Some 3%nat) None)) N)
  = Raise RuntimeError.
Proof.
  apply (page_after_new_record_raises sample_heap
           (add_record sample_heap AddressBook_init two_equal_phones)
           (Record_init 7%nat (Some 3%nat) None) N 0).
  - reflexivity.
  - repeat constructor; simpl; intuition.
  - simpl; lia.
  - simpl; intuition discriminate.
Defined.

Lemma AddressBook_next_data (h : heap) (self : AddressBook) (n : Z) :
  data (snd (AddressBook_next h self n)) = data self.
Proof.
  unfold AddressBook_next.
  destruct (next_items (data self) (Z.to_nat n) (keys_iter self) [])
    as [[raised items] it].
  reflexivity.
Qed.

(** X22: page requests, whether they give a page or raise, never change
    the records of the book, and [iter] forgets the position reached:
    called again after any number of requests of any size, it leaves the
    book as a first call of [iter] does, ready to list from the first
    record on. *)
Theorem iter_restarts_the_listing
  (h : heap) (book : AddressBook) (n : Z) (i : nat) :
  data (after_pages h n i book) = data book
  /\ AddressBook_iter (after_pages h n i book) = AddressBook_iter book.
Proof.
  assert (Hdata : data (after_pages h n i book) = data book).
  { induction i as [|i IH]; simpl; [reflexivity|].
    now rewrite AddressBook_next_data. }
  split; [exact Hdata|].
  unfold AddressBook_iter; now rewrite Hdata.
Qed.

(** ** The text of a page *)









(** *** The code's text and the specification's *)

Lemma str_app_assoc (a b c : string) :
  ((a ++ b) ++ c = a ++ b ++ c)%string.
Proof.
  induction a as [|x a IH]; simpl; [reflexivity | now rewrite IH].
Qed.

Lemma str_app_length (a b : string) :
  String.length (a ++ b)%string = (String.length a + String.length b)%nat.
Proof.
  induction a as [|x a IH]; simpl; [reflexivity | now rewrite IH].
Qed.

Lemma repeat_char_spaces (n : nat) : repeat_char " " n = spaces n.
Proof.
  unfold spaces; induction n as [|n IH]; simpl; [reflexivity|].
  now rewrite IH.
Qed.

Lemma repeat_char_spaces_sep : repeat_char "-" 70 = separator.
Proof. reflexivity. Qed.

Lemma pad_ljust (width : nat) (s : string) :
  pad AlignLeft width s = ljust width s.
Proof. unfold pad, ljust; now rewrite repeat_char_spaces. Qed.

Lemma pad_rjust (width : nat) (s : string) :
  pad AlignRight width s = rjust width s.
Proof. unfold pad, rjust; now rewrite repeat_char_spaces. Qed.

Lemma pad_centered (width : nat) (s : string) :
  pad AlignCenter width s = centered width s.
Proof. unfold pad, centered; now rewrite !repeat_char_spaces. Qed.

Lemma zero_pad_two_digits (z : Z) :
  0 <= z < 100 -> zero_pad 2 z = two_digits z.
Proof.
  intros Hz.
  assert (Hall :
    forallb (fun n => String.eqb (zero_pad 2 (Z.of_nat n))
                        (two_digits (Z.of_nat n)))
            (seq 0 100) = true) by (vm_compute; reflexivity).
  rewrite forallb_forall in Hall.
  specialize (Hall (Z.to_nat z)).
  rewrite Z2Nat.id in Hall by lia.
  apply String.eqb_eq, Hall, in_seq; lia.
Qed.

Lemma str_of_Z_four_digits (z : Z) :
  1000 <= z <= 9999 -> str_of_Z z = four_digits z.
Proof.
  intros Hz.
  assert (Hall :
    forallb (fun n => String.eqb (str_of_Z (1000 + Z.of_nat n))
                        (four_digits (1000 + Z.of_nat n)))
            (seq 0 (Z.to_nat 9000)) = true) by (vm_compute; reflexivity).
  rewrite forallb_forall in Hall.
  specialize (Hall (Z.to_nat (z - 1000))).
  rewrite Z2Nat.id in Hall by lia.
  replace (1000 + (z - 1000)) with z in Hall by lia.
  apply String.eqb_eq, Hall, in_seq; lia.
Qed.

Lemma strftime_birthday_text (d : datetime) :
  1 <= day d <= 31 -> 1 <= month d <= 12 -> 1000 <= year d <= 9999 ->
  strftime_birthday d = birthday_text (Some d).
Proof.
  intros Hd Hm Hy; unfold strftime_birthday, birthday_text.
  now rewrite !zero_pad_two_digits, str_of_Z_four_digits by lia.
Qed.

Lemma first_row_text (name phone birthday : string) :
  first_row (PyStr name) (PyStr phone) birthday
  = Ok (name_line name phone birthday ++ nl)%string.
Proof.
  unfold first_row, name_line; cbn [format_value bind].
  rewrite pad_ljust, pad_rjust, pad_centered.
  now rewrite !str_app_assoc.
Qed.

Lemma first_row_no_phone_text (name birthday : string) :
  first_row (PyStr name) (PyStr " ") birthday
  = Ok (name_line name "" birthday ++ nl)%string.
Proof.
  rewrite first_row_text; unfold name_line.
  replace (rjust 19 " ") with (rjust 19 "") by reflexivity.
  reflexivity.
Qed.

Lemma other_row_text (phone : string) :
  other_row (PyStr phone) = Ok (phone_line phone ++ nl)%string.
Proof.
  unfold other_row, phone_line; cbn [format_value bind].
  rewrite pad_rjust.
  replace (pad AlignLeft 33 " ") with (spaces 33) by reflexivity.
  replace (pad AlignCenter 13 " ") with (spaces 13) by reflexivity.
  now rewrite !str_app_assoc.
Qed.

Lemma unlines_app (a b : list string) :
  unlines (a ++ b) = (unlines a ++ unlines b)%string.
Proof.
  induction a as [|r a IH]; simpl; [reflexivity|].
  now rewrite IH, !str_app_assoc.
Qed.

Lemma str_app_nil_r (a : string) : (a ++ "" = a)%string.
Proof.
  induction a as [|x a IH]; simpl; [reflexivity | now rewrite IH].
Qed.

(** The rows of the further phones. *)
Lemma phone_rows_more_text (h : heap) (name birthday : string)
  (ps : list string) :
  forall (locs : list loc) (i : nat) (acc : string),
    map (fun p => value (deref h p)) locs = map PyStr ps ->
    i <> 0%nat ->
    phone_rows h (PyStr name) birthday i locs acc
    = Ok (acc ++ unlines (map phone_line ps))%string.
Proof.
  induction ps as [|p ps IH]; intros [|l locs] i acc Hv Hi;
    try discriminate; cbn [phone_rows map unlines].
  - now rewrite str_app_nil_r.
  - cbn [map] in Hv; injection Hv as Hl Hv; rewrite Hl.
    destruct (Nat.eqb_spec i 0) as [-> | _]; [congruence|].
    rewrite other_row_text; cbn [bind].
    rewrite (IH locs (S i)) by (auto; lia).
    now rewrite !str_app_assoc.
Qed.

Lemma contact_rows_text (h : heap) (item : pyval * record) (c : contact)
  (acc : string) :
  represents h item c ->
  contact_rows h acc item = Ok (acc ++ unlines (contact_lines c))%string.
Proof.
  destruct item as [key user]; destruct c as [name ps bd].
  unfold represents; cbn [fst snd contact_name contact_phones
                            contact_birthday].
  intros (-> & Hps & Hbd).
  assert (Hbirthday :
    match birthday user with
    | Some b =>
        d <- as_datetime (value (deref h b)) ;; Ok (strftime_birthday d)
    | None => Ok ""
    end = Ok (birthday_text bd)).
  { destruct (birthday user) as [b|], bd as [d|]; try contradiction.
    - destruct Hbd as (-> & Hd & Hm & Hy); simpl.
      now rewrite strftime_birthday_text.
    - reflexivity. }
  unfold contact_rows, contact_lines; rewrite Hbirthday; cbn [bind].
  cbn [contact_name contact_phones contact_birthday].
  destruct (phones user) as [|l locs] eqn:E, ps as [|p ps];
    try discriminate; cbn [phone_rows bind].
  - rewrite first_row_no_phone_text; cbn [bind].
    unfold rule; cbn [app unlines].
    rewrite repeat_char_spaces_sep.
    now rewrite !str_app_assoc.
  - cbn [map] in Hps; injection Hps as Hl Hps; rewrite Hl.
    cbn [Nat.eqb]; rewrite first_row_text; cbn [bind].
    rewrite (phone_rows_more_text h name (birthday_text bd) ps locs 1)
      by (auto; lia).
    cbn [bind]; unfold rule.
    rewrite unlines_app; cbn [app unlines].
    rewrite repeat_char_spaces_sep.
    now rewrite !str_app_assoc.
Qed.

Lemma render_items_text (h : heap) (items : list (pyval * record))
  (cs : list contact) :
  Forall2 (represents h) items cs ->
  forall acc,
    render_items h items acc
    = Ok (acc ++ unlines (flat_map contact_lines cs))%string.
Proof.
  intros Hall; induction Hall as [|item c items cs Hitem Hall IH];
    intros acc; cbn [render_items flat_map unlines].
  - now rewrite str_app_nil_r.
  - rewrite (contact_rows_text h item c acc Hitem); cbn [bind].
    rewrite IH, unlines_app.
    now rewrite !str_app_assoc.
Qed.

(** The page the code formats is the page the specification words. *)
Lemma render_page_text (h : heap) (items : list (pyval * record))
  (cs : list contact) :
  Forall2 (represents h) items cs ->
  render_page h items = Ok (unlines (page_lines cs)).
Proof.
  intros Hall; unfold render_page, page_lines.
  rewrite (render_items_text h items cs Hall), unlines_app.
  reflexivity.
Qed.

Lemma Forall2_firstn {A B : Type} (R : A -> B -> Prop) (n : nat)
  (l : list A) (l' : list B) :
  Forall2 R l l' -> Forall2 R (firstn n l) (firstn n l').
Proof.
  intros H; revert n; induction H as [|x y l l' Hxy H IH]; intros [|n];
    simpl; constructor; auto.
Qed.

Lemma Forall2_skipn {A B : Type} (R : A -> B -> Prop) (n : nat)
  (l : list A) (l' : list B) :
  Forall2 R l l' -> Forall2 R (skipn n l) (skipn n l').
Proof.
  intros H; revert n; induction H as [|x y l l' Hxy H IH]; intros [|n];
    simpl; try constructor; auto.
Qed.

(** *** Lines *)

Lemma spaces_length (n : nat) : String.length (spaces n) = n.
Proof.
  unfold spaces; induction n as [|n IH]; simpl; [reflexivity|].
  now rewrite IH.
Qed.

Lemma has_char_app (c : ascii) (a b : string) :
  has_char c (a ++ b)%string = has_char c a || has_char c b.
Proof.
  induction a as [|x a IH]; simpl; [reflexivity|].
  now rewrite IH, orb_assoc.
Qed.

Lemma spaces_no_newline (n : nat) : has_char newline (spaces n) = false.
Proof.
  unfold spaces; induction n as [|n IH]; simpl; [reflexivity | exact IH].
Qed.

Lemma ljust_line (width : nat) (s : string) :
  (String.length s <= width)%nat -> has_char newline s = false ->
  String.length (ljust width s) = width
  /\ has_char newline (ljust width s) = false.
Proof.
  intros Hl Hn; unfold ljust.
  rewrite str_app_length, spaces_length, has_char_app, Hn,
    spaces_no_newline.
  split; [lia | reflexivity].
Qed.

Lemma rjust_line (width : nat) (s : string) :
  (String.length s <= width)%nat -> has_char newline s = false ->
  String.length (rjust width s) = width
  /\ has_char newline (rjust width s) = false.
Proof.
  intros Hl Hn; unfold rjust.
  rewrite str_app_length, spaces_length, has_char_app, Hn,
    spaces_no_newline.
  split; [lia | reflexivity].
Qed.

Lemma centered_line (width : nat) (s : string) :
  (String.length s <= width)%nat -> has_char newline s = false ->
  String.length (centered width s) = width
  /\ has_char newline (centered width s) = false.
Proof.
  intros Hl Hn; unfold centered.
  rewrite !str_app_length, !spaces_length, !has_char_app, Hn,
    !spaces_no_newline.
  assert (((width - String.length s) / 2 <= width - String.length s)%nat)
    by (apply Nat.Div0.div_le_upper_bound; lia).
  split; [lia | reflexivity].
Qed.

Lemma digit_char_no_newline (z : Z) :
  0 <= z <= 9 -> Ascii.eqb (digit_char z) newline = false.
Proof.
  intros Hz.
  assert (Hcases : z = 0 \/ z = 1 \/ z = 2 \/ z = 3 \/ z = 4 \/ z = 5
                   \/ z = 6 \/ z = 7 \/ z = 8 \/ z = 9) by lia.
  destruct Hcases as [-> | [-> | [-> | [-> | [-> | [-> | [-> | [-> | [-> | ->
    ]]]]]]]]]; reflexivity.
Qed.

Lemma birthday_text_line (b : option datetime) :
  match b with
  | Some d => 1 <= day d <= 31 /\ 1 <= month d <= 12
              /\ 1000 <= year d <= 9999
  | None => True
  end ->
  (String.length (birthday_text b) <= 13)%nat
  /\ has_char newline (birthday_text b) = false.
Proof.
  destruct b as [d|]; [|intros _; split; [simpl; lia | reflexivity]].
  intros (Hd & Hm & Hy).
  split; [simpl; lia|].
  unfold birthday_text, two_digits, four_digits.
  cbn [append has_char].
  rewrite !digit_char_no_newline
    by (Z.div_mod_to_equations; lia).
  reflexivity.
Qed.

Lemma name_line_line (name phone birthday : string) :
  (String.length name <= 32)%nat -> has_char newline name = false ->
  (String.length phone <= 19)%nat -> has_char newline phone = false ->
  (String.length birthday <= 13)%nat -> has_char newline birthday = false ->
  String.length (name_line name phone birthday) = 70%nat
  /\ has_char newline (name_line name phone birthday) = false.
Proof.
  intros H1 N1 H2 N2 H3 N3; unfold name_line.
  destruct (ljust_line 32 name H1 N1) as [L1 M1].
  destruct (rjust_line 19 phone H2 N2) as [L2 M2].
  destruct (centered_line 13 birthday H3 N3) as [L3 M3].
  rewrite !str_app_length, !has_char_app, L1, L2, L3, M1, M2, M3.
  split; reflexivity.
Qed.

Lemma phone_line_line (phone : string) :
  (String.length phone <= 19)%nat -> has_char newline phone = false ->
  String.length (phone_line phone) = 70%nat
  /\ has_char newline (phone_line phone) = false.
Proof.
  intros H2 N2; unfold phone_line.
  destruct (rjust_line 19 phone H2 N2) as [L2 M2].
  rewrite !str_app_length, !has_char_app, !spaces_length,
    !spaces_no_newline, L2, M2.
  split; reflexivity.
Qed.

Lemma contact_lines_lines (c : contact) :
  fits_columns c ->
  match contact_birthday c with
  | Some d => 1 <= day d <= 31 /\ 1 <= month d <= 12
              /\ 1000 <= year d <= 9999
  | None => True
  end ->
  Forall (fun r => String.length r = 70%nat
                   /\ has_char newline r = false) (contact_lines c)
  /\ List.length (contact_lines c)
     = (Nat.max 1 (List.length (contact_phones c)) + 1)%nat.
Proof.
  destruct c as [name ps bd]; unfold fits_columns, contact_lines;
    cbn [contact_name contact_phones contact_birthday].
  intros (Hn & Nn & Hps) Hbd.
  destruct (birthday_text_line bd Hbd) as [Hb Nb].
  assert (Hsep : String.length separator = 70%nat
                 /\ has_char newline separator = false)
    by (split; reflexivity).
  destruct Hps as [|p ps [Hp Np] Hps].
  - split; [|reflexivity].
    repeat constructor; try apply Hsep;
      apply name_line_line; auto; simpl; lia.
  - split.
    + apply Forall_app; split; [|repeat constructor; apply Hsep].
      constructor; [now apply name_line_line|].
      apply Forall_map.
      eapply Forall_impl; [|exact Hps].
      intros q [Hq Nq]; now apply phone_line_line.
    + rewrite length_app; simpl; rewrite length_map; lia.
Qed.

Lemma represents_birthday (h : heap) (item : pyval * record) (c : contact) :
  represents h item c ->
  match contact_birthday c with
  | Some d => 1 <= day d <= 31 /\ 1 <= month d <= 12
              /\ 1000 <= year d <= 9999
  | None => True
  end.
Proof.
  intros (_ & _ & H).
  destruct (birthday (snd item)), (contact_birthday c);
    try contradiction; tauto.
Qed.

(** X21: the layout of a page.  For records that hold strings for name
    and phones, a name of at most 32 characters, phones of at most 19 (as
    every phone a Phone holds is), no newline inside them, and a birthday
    absent or a date of a four-digit year, the page is the text the
    layout describes: a sequence of lines, each of exactly 70 characters
    and closed by a newline, three for the heading, then for each contact
    one line per phone (one when it has none) and a separator. *)
Theorem page_lines_are_70_wide
  (h : heap) (items : list (pyval * record)) (cs : list contact) :
  Forall2 (represents h) items cs ->
  Forall fits_columns cs ->
  render_page h items = Ok (unlines (page_lines cs))
  /\ Forall (fun r => String.length r = 70%nat
                      /\ has_char newline r = false) (page_lines cs)
  /\ List.length (page_lines cs) = contact_line_count cs.
Proof.
  intros Hrep Hfit.
  split; [now apply render_page_text|].
  unfold page_lines.
  assert (Hrows :
    Forall (fun r => String.length r = 70%nat
                     /\ has_char newline r = false)
           (flat_map contact_lines cs)
    /\ (3 + List.length (flat_map contact_lines cs))%nat
       = contact_line_count cs).
  { clear - Hrep Hfit.
    induction Hrep as [|item c items cs Hitem Hrep IH];
      cbn [flat_map contact_line_count].
    - split; [constructor | reflexivity].
    - inversion Hfit as [|? ? Hc Hcs]; subst.
      destruct (IH Hcs) as [Hall Hcount].
      destruct (contact_lines_lines c Hc
                  (represents_birthday h item c Hitem)) as [Hl Hn].
      split.
      + apply Forall_app; split; assumption.
      + rewrite length_app, Hn; lia. }
  destruct Hrows as [Hall Hcount].
  split.
  - apply Forall_app; split; [|assumption].
    repeat constructor.
  - rewrite length_app; simpl; lia.
Qed.

Lemma page_lines_are_70_wide_witness :
  let cs := [mk_contact "Bill" ["1234567890"; "1234567890"] None;
             mk_contact "John Doe" ["0987654321"]
               (Some (mk_datetime 1991 8 24 0 0 0 0))] in
  render_page sample_heap (data sample_book) = Ok (unlines (page_lines cs))
  /\ Forall (fun r => String.length r = 70%nat
                      /\ has_char newline r = false) (page_lines cs)
  /\ List.length (page_lines cs) = 8%nat.
Proof.
  intros cs.
  apply (page_lines_are_70_wide sample_heap (data sample_book) cs).
  - repeat constructor; simpl; lia.
  - repeat constructor; simpl; lia.
Defined.

(** ** Three pages of a book of 25 *)

(** C6 as stated fails.  A book of 25 records of which the first is
    [Record(Name('user1'), Phone('abc'))] gives no first page: the
    request raises [TypeError], the phone holding no value.  And a
    request of size 0 on an empty book returns a page, the heading alone,
    where the claim has the end of the iteration signalled. *)
Lemma unvalued_phone_breaks_first_page :
  List.length (data book25_abc) = 25%nat
  /\ value (deref heap25_abc 25%nat) = PyNone
  /\ nth_error (data book25_abc) 0
     = Some (PyStr "user1", Record_init 0%nat (Some 25%nat) None)
  /\ fst (AddressBook_next heap25_abc (AddressBook_iter book25_abc) N)
     = Raise TypeError
  /\ fst (AddressBook_next heap25_abc (AddressBook_iter AddressBook_init) 0)
     = Ok (unlines [separator; heading_line; separator]).
Proof. repeat split; vm_compute; reflexivity. Qed.

(** C6, amended: on a book of 25 records that hold strings for name and
    phones and a birthday absent or a date (of a four-digit year), after
    [iter], three page requests of size 10 give three formatted pages,
    the text the layout describes for the first 10, the next 10 and the
    last 5 records, and the fourth request raises [StopIteration].  In
    general a request of size at least one that finds no record
    remaining raises [StopIteration] instead of giving an empty page, the
    first request on an empty book included. *)
Theorem three_pages_of_25_then_stop
  (h : heap) (self : AddressBook) (cs : list contact) :
  List.length (data self) = 25%nat ->
  NoDup (map fst (data self)) ->
  Forall2 (represents h) (data self) cs ->
  (exists b1 b2 b3 b4,
      AddressBook_next h (AddressBook_iter self) N
      = (Ok (unlines (page_lines (firstn 10 cs))), b1)
      /\ AddressBook_next h b1 N
         = (Ok (unlines (page_lines (firstn 10 (skipn 10 cs)))), b2)
      /\ AddressBook_next h b2 N
         = (Ok (unlines (page_lines (skipn 20 cs))), b3)
      /\ AddressBook_next h b3 N = (Raise StopIteration, b4)
      /\ List.length (firstn 10 cs) = 10%nat
      /\ List.length (firstn 10 (skipn 10 cs)) = 10%nat
      /\ List.length (skipn 20 cs) = 5%nat
      /\ cs = firstn 10 cs ++ firstn 10 (skipn 10 cs) ++ skipn 20 cs)
  /\ (forall book n,
        0 < n -> in_step book -> remaining book = [] ->
        fst (AddressBook_next h book n) = Raise StopIteration)
  /\ (forall n,
        0 < n ->
        fst (AddressBook_next h (AddressBook_iter AddressBook_init) n)
        = Raise StopIteration).
Proof.
  intros Hlen Hnd Hrep.
  assert (Hstop : forall book n,
             0 < n -> in_step book -> remaining book = [] ->
             fst (AddressBook_next h book n) = Raise StopIteration).
  { intros book n Hn Hstep Hrem.
    destruct (next_exhausted h book n Hn Hstep Hrem) as (b & -> & _).
    reflexivity. }
  split; [|split; [exact Hstop|]].
  2:{ intros n Hn; apply Hstop; [assumption | |];
      unfold in_step, remaining; simpl; auto. }
  assert (Hcs : List.length cs = 25%nat)
    by (rewrite <- (Forall2_length Hrep); exact Hlen).
  destruct (three_pages_of_25 h self Hlen Hnd)
    as (b1 & b2 & b3 & b4 & E1 & E2 & E3 & E4).
  rewrite (render_page_text h _ (firstn 10 cs)) in E1
    by now apply Forall2_firstn.
  rewrite (render_page_text h _ (firstn 10 (skipn 10 cs))) in E2
    by now apply Forall2_firstn, Forall2_skipn.
  rewrite (render_page_text h _ (skipn 20 cs)) in E3
    by now apply Forall2_skipn.
  exists b1, b2, b3, b4.
  repeat split; try assumption.
  - rewrite length_firstn; lia.
  - rewrite length_firstn, length_skipn; lia.
  - rewrite length_skipn; lia.
  - rewrite <- (firstn_skipn 10 cs) at 1; f_equal.
    rewrite <- (firstn_skipn 10 (skipn 10 cs)) at 1; f_equal.
    now rewrite skipn_skipn.
Qed.

Lemma book25_contacts : Forall2 (represents heap25) (data book25) contacts25.
Proof.
  vm_compute.
  repeat constructor.
Qed.

Lemma three_pages_of_25_then_stop_witness :
  exists b1 b2 b3 b4,
    AddressBook_next heap25 (AddressBook_iter book25) N
    = (Ok (unlines (page_lines (firstn 10 contacts25))), b1)
    /\ AddressBook_next heap25 b1 N
       = (Ok (unlines (page_lines (firstn 10 (skipn 10 contacts25)))), b2)
    /\ AddressBook_next heap25 b2 N
       = (Ok (unlines (page_lines (skipn 20 contacts25))), b3)
    /\ AddressBook_next heap25 b3 N = (Raise StopIteration, b4)
    /\ nth_error (page_lines (skipn 20 contacts25)) 3
       = Some (name_line "user21" "" "").
Proof.
  destruct (three_pages_of_25_then_stop heap25 book25 contacts25 eq_refl
              book25_keys_distinct book25_contacts)
    as [(b1 & b2 & b3 & b4 & E1 & E2 & E3 & E4 & _) _].
  exists b1, b2, b3, b4.
  repeat split; assumption || reflexivity.
Defined.
